(** * Textual-inversion training script: embedding of [train_textual_inversion.py]

    The development follows the script top-down:
    - Python values the script manipulates (tensors, unpickled objects,
      exceptions, files);
    - the weight codec [save_weights] / [load_weights];
    - the token registrar (the head of [train]): token strings, the tokenizer
      collaborator, the resize of the embedding table, the initialisation of
      the new rows;
    - the training loop of [train]: optimizer step, restoration of the frozen
      rows, global step counter and early stop.

    Collaborators that the script only calls (tokenizer, optimizer,
    serialisation libraries, gradient accumulation) are represented by the
    contract the script relies on; everything the script itself does is
    translated statement by statement. *)

From Stdlib Require Import String Ascii List Arith ZArith Bool Lia.
From Stdlib Require Import DecimalString DecimalNat.
Import ListNotations.
Local Open Scope string_scope.
Local Open Scope list_scope.
Local Open Scope nat_scope.

(* ===================================================================== *)
(** ** Python exceptions and fallible computations *)
(* ===================================================================== *)

(** The exceptions that can leave [load_weights] and the head of [train].
    [ValueError] carries the message of the [raise] statement (its ASCII
    part followed by the file name, as the f-string builds it);
    [AssertionError] carries the message of the failed [assert]. *)
Inductive pyerror : Type :=
| FileNotFoundError (file : string)
| UnpicklingError
| SafetensorError
| ValueError (msg : string)
| AssertionError (msg : string)
| StopIteration
| AttributeError
| RuntimeError
| IndexError
| ZeroDivisionError.

Inductive result (A : Type) : Type :=
| Ok (a : A)
| Err (e : pyerror).
Arguments Ok {A} a.
Arguments Err {A} e.

Definition bind {A B : Type} (r : result A) (k : A -> result B) : result B :=
  match r with
  | Ok a => k a
  | Err e => Err e
  end.

Notation "x <- r ;; k" := (bind r (fun x => k))
  (at level 61, r at next level, right associativity).

(* ===================================================================== *)
(** ** [os.path.splitext] *)
(* ===================================================================== *)

Module Path.

Local Open Scope Z_scope.

(** [str.rfind] for a one-character needle: index of the last occurrence,
    [-1] when there is none. *)
Fixpoint rfind_from (c : ascii) (p : string) (i last : Z) : Z :=
  match p with
  | EmptyString => last
  | String a p' => rfind_from c p' (i + 1) (if Ascii.eqb a c then i else last)
  end.

Definition rfind (c : ascii) (p : string) : Z := rfind_from c p 0 (-1).

(** The [while filenameIndex < dotIndex] loop of [genericpath._splitext]:
    [true] when a character other than the extension separator is met
    before [dotIndex] ([n] iterations remain). *)
Fixpoint has_name_before_dot (p : string) (filenameIndex : nat) (n : nat) : bool :=
  match n with
  | O => false
  | S n' =>
      match String.get filenameIndex p with
      | Some a =>
          if Ascii.eqb a "."%char
          then has_name_before_dot p (S filenameIndex) n'
          else true
      | None => true
      end
  end.

(** [os.path.splitext(p)] on a POSIX path. *)
Definition splitext (p : string) : string * string :=
  let sepIndex := rfind "/"%char p in
  let dotIndex := rfind "."%char p in
  if (sepIndex <? dotIndex)
  then
    if has_name_before_dot p (Z.to_nat (sepIndex + 1))
                           (Z.to_nat (dotIndex - (sepIndex + 1)))
    then (String.substring 0 (Z.to_nat dotIndex) p,
          String.substring (Z.to_nat dotIndex)
                           (String.length p - Z.to_nat dotIndex) p)
    else (p, EmptyString)
  else (p, EmptyString).

End Path.

(** [os.path.splitext(file)[1] == ".safetensors"] *)
Definition is_safetensors (file : string) : bool :=
  String.eqb (snd (Path.splitext file)) ".safetensors".

(* ===================================================================== *)
(** ** Tensors and unpickled Python objects *)
(* ===================================================================== *)

Inductive dtype : Type := Float32 | Float16 | BFloat16.

Definition dtype_eqb (a b : dtype) : bool :=
  match a, b with
  | Float32, Float32 | Float16, Float16 | BFloat16, BFloat16 => true
  | _, _ => false
  end.

(** A tensor: element type, shape, and the elements as bit patterns in
    row-major order. Equality of two tensors is bit-for-bit equality. *)
Record tensor : Type := mkTensor {
  t_dtype : dtype;
  t_shape : list nat;
  t_data : list Z
}.

(** [len(emb.size())] *)
Definition rank (t : tensor) : nat := length (t_shape t).

(** [emb.unsqueeze(0)] *)
Definition unsqueeze0 (t : tensor) : tensor :=
  mkTensor (t_dtype t) (1 :: t_shape t) (t_data t).

(** What [torch.load] can hand back, as far as [load_weights] tells the
    cases apart: a plain [torch.Tensor], an [nn.Parameter] (a subclass, so
    [type(x) != torch.Tensor]), a [dict], an object with a [_parameters]
    attribute (an [nn.ParameterDict] of old checkpoints), anything else. *)
#[warnings="-register-all"]
Inductive pyobj : Type :=
| PyTensor (t : tensor)
| PyParameter (t : tensor)
| PyDict (items : list (string * pyobj))
| PyModule (_parameters : list (string * pyobj))
| PyOther (repr : string).

(** Files are either safetensors archives (a name-to-tensor table, in the
    order the reader yields it) or pickled objects. *)
Inductive file_content : Type :=
| SafetensorsArchive (tensors : list (string * tensor))
| PickleFile (obj : pyobj).

Definition filesystem : Type := string -> option file_content.

Definition write_file (fs : filesystem) (file : string) (c : file_content) : filesystem :=
  fun f => if String.eqb f file then Some c else fs f.

Definition empty_fs : filesystem := fun _ => None.

(** [d[key]] on a dict kept in insertion order; [None] when [key in d] is
    false. *)
Fixpoint dict_get {A : Type} (key : string) (items : list (string * A)) : option A :=
  match items with
  | [] => None
  | (k, v) :: rest => if String.eqb k key then Some v else dict_get key rest
  end.

(** [d.values()] in iteration order. *)
Definition dict_values {A : Type} (items : list (string * A)) : list A :=
  map snd items.

(* ===================================================================== *)
(** ** Tensor objects handed to the writers *)
(* ===================================================================== *)

(** How the elements of a tensor object lie in its storage: in row-major
    order ([Contiguous]), densely but in another order, as after a
    transposition ([DensePermuted]), or with gaps, as after a strided slice
    ([Gapped]). The elements in [t_data] are always listed in row-major
    order of the indices, whatever the layout. *)
Inductive layout : Type := Contiguous | DensePermuted | Gapped.

(** [x.is_contiguous()] *)
Definition is_contiguous (l : layout) : bool :=
  match l with Contiguous => true | _ => false end.

(** Layout of [x.clone()] and of a converting [x.to(dtype)], which keep the
    strides of a dense tensor and pack any other. *)
Definition clone_layout (l : layout) : layout :=
  match l with
  | Gapped => Contiguous
  | _ => l
  end.

(** A tensor object as [save_weights] receives it: its content, its layout
    and whether it is an [nn.Parameter] rather than a plain [torch.Tensor]. *)
Record tensor_object : Type := mkObject {
  obj_tensor : tensor;
  obj_layout : layout;
  obj_is_parameter : bool
}.

(** The name that [torch.save] gives to the archive inside the file: the
    text after the last [/] or [\] and before the last dot that follows
    it. *)
Definition torch_archive_name (name : string) : string :=
  let start := Z.to_nat (Z.max (Path.rfind "/"%char name) (Path.rfind "\"%char name) + 1) in
  if String.length name <=? start then EmptyString
  else
    let dot := Path.rfind "."%char name in
    let stop := if (Z.of_nat start <=? dot)%Z then Z.to_nat dot
                else String.length name in
    String.substring start (stop - start) name.

Definition non_contiguous_msg (key : string) : string :=
  String.append "You are trying to save a non contiguous tensor: `"
                (String.append key "` which is not allowed.").

(* ===================================================================== *)
(** ** Weight codec: [save_weights] and [load_weights] *)
(* ===================================================================== *)

Section Codec.

(** Element conversion performed by [Tensor.to(dtype)]: [convert src dst x]
    is the bit pattern of [x] re-encoded from [src] to [dst]. *)
Variable convert : dtype -> dtype -> Z -> Z.

(** The content of [t.to(d)]. *)
Definition tensor_to (d : dtype) (t : tensor) : tensor :=
  if dtype_eqb (t_dtype t) d then t
  else mkTensor d (t_shape t) (map (convert (t_dtype t) d) (t_data t)).

(** What the operating system answers when a writer creates the file of
    that name: [None] when the file can be created, the exception raised
    otherwise (missing parent directory, empty name, no permission). *)
Variable create_error : string -> option pyerror.

(** [v.detach().clone().to("cpu").to(save_dtype)] on a tensor object: the
    result is a plain tensor with the converted elements. *)
Definition detach_clone_to (d : dtype) (o : tensor_object) : tensor_object :=
  mkObject (tensor_to d (obj_tensor o)) (clone_layout (obj_layout o)) false.

(** First entry of the state dict that is not contiguous. *)
Fixpoint first_non_contiguous (state_dict : list (string * tensor_object))
  : option string :=
  match state_dict with
  | [] => None
  | (key, o) :: rest =>
      if is_contiguous (obj_layout o) then first_non_contiguous rest else Some key
  end.

(** [safetensors.torch.save_file(state_dict, file)]: the tensors are
    flattened to bytes first, which refuses a tensor that is not
    contiguous; then the file is created. The archive keeps the elements
    only. *)
Definition save_file (fs : filesystem) (state_dict : list (string * tensor_object))
           (file : string) : result filesystem :=
  match first_non_contiguous state_dict with
  | Some key => Err (ValueError (non_contiguous_msg key))
  | None =>
      match create_error file with
      | Some e => Err e
      | None =>
          Ok (write_file fs file
                (SafetensorsArchive
                   (map (fun kv => (fst kv, obj_tensor (snd kv))) state_dict)))
      end
  end.

(** An object as it is pickled: an [nn.Parameter] stays one. *)
Definition pickled (o : tensor_object) : pyobj :=
  if obj_is_parameter o then PyParameter (obj_tensor o) else PyTensor (obj_tensor o).

(** [torch.save(state_dict, file)]: the zip writer refuses a file name
    whose archive name is empty, then creates the file. *)
Definition torch_save (fs : filesystem) (state_dict : list (string * tensor_object))
           (file : string) : result filesystem :=
  if String.eqb (torch_archive_name file) EmptyString then Err RuntimeError
  else
    match create_error file with
    | Some e => Err e
    | None =>
        Ok (write_file fs file
              (PickleFile (PyDict (map (fun kv => (fst kv, pickled (snd kv)))
                                       state_dict))))
    end.

(** [safetensors.torch.load_file(file)]: a dict of plain tensors. *)
Definition load_file (fs : filesystem) (file : string) : result pyobj :=
  match fs file with
  | None => Err (FileNotFoundError file)
  | Some (SafetensorsArchive ts) =>
      Ok (PyDict (map (fun kv => (fst kv, PyTensor (snd kv))) ts))
  | Some (PickleFile _) => Err SafetensorError
  end.

(** [torch.load(file, map_location="cpu")] *)
Definition torch_load (fs : filesystem) (file : string) : result pyobj :=
  match fs file with
  | None => Err (FileNotFoundError file)
  | Some (PickleFile o) => Ok o
  | Some (SafetensorsArchive _) => Err UnpicklingError
  end.

(** <<
    def save_weights(file, updated_embs, save_dtype):
        state_dict = {"emb_params": updated_embs}
        if save_dtype is not None:
            for key in list(state_dict.keys()):
                v = state_dict[key]
                v = v.detach().clone().to("cpu").to(save_dtype)
                state_dict[key] = v
        if os.path.splitext(file)[1] == ".safetensors":
            save_file(state_dict, file)
        else:
            torch.save(state_dict, file)
    >> *)
Definition save_weights (fs : filesystem) (file : string) (updated_embs : tensor_object)
           (save_dtype : option dtype) : result filesystem :=
  let state_dict := [("emb_params", updated_embs)] in
  let state_dict :=
    match save_dtype with
    | Some d => map (fun kv => (fst kv, detach_clone_to d (snd kv))) state_dict
    | None => state_dict
    end in
  if is_safetensors file
  then save_file fs state_dict file
  else torch_save fs state_dict file.

(** [type(data) != dict] is false exactly on [PyDict]. *)
Definition is_dict (o : pyobj) : bool :=
  match o with PyDict _ => true | _ => false end.

Definition not_dict_msg (file : string) : string :=
  String.append "weight file is not dict: " file.

Definition not_tensor_msg (file : string) : string :=
  String.append "weight file does not contains Tensor: " file.

(** The [if "string_to_param" in data:] block; [items] are the entries of
    the dict [data]. *)
Definition select_string_to_param (items : list (string * pyobj)) : pyobj :=
  match dict_get "string_to_param" items with
  | Some nested =>
      match nested with
      | PyModule params => PyDict params
      | _ => nested
      end
  | None => PyDict items
  end.

(** [data.values()]: defined on dicts; a dense tensor rejects the call,
    other objects have no such attribute. *)
Definition py_values (data : pyobj) : result (list pyobj) :=
  match data with
  | PyDict items => Ok (dict_values items)
  | PyModule params => Ok (dict_values params)
  | PyTensor _ | PyParameter _ => Err RuntimeError
  | PyOther _ => Err AttributeError
  end.

(** [next(iter(values))] *)
Definition py_next {A : Type} (values : list A) : result A :=
  match values with
  | [] => Err StopIteration
  | v :: _ => Ok v
  end.

(** <<
    def load_weights(file):
        if os.path.splitext(file)[1] == ".safetensors":
            data = load_file(file)
        else:
            data = torch.load(file, map_location="cpu")
            if type(data) != dict:
                raise ValueError(...)
            if "string_to_param" in data:
                data = data["string_to_param"]
                if hasattr(data, "_parameters"):
                    data = getattr(data, "_parameters")
        emb = next(iter(data.values()))
        if type(emb) != torch.Tensor:
            raise ValueError(...)
        if len(emb.size()) == 1:
            emb = emb.unsqueeze(0)
        return emb
    >> *)
Definition load_weights (fs : filesystem) (file : string) : result tensor :=
  data <- (if is_safetensors file
           then load_file fs file
           else
             data <- torch_load fs file ;;
             match data with
             | PyDict items => Ok (select_string_to_param items)
             | _ => Err (ValueError (not_dict_msg file))
             end) ;;
  values <- py_values data ;;
  emb <- py_next values ;;
  match emb with
  | PyTensor emb =>
      let emb := if Nat.eqb (rank emb) 1 then unsqueeze0 emb else emb in
      Ok emb
  | _ => Err (ValueError (not_tensor_msg file))
  end.

End Codec.

(* ===================================================================== *)
(** ** Token registrar (head of [train]) *)
(* ===================================================================== *)

(** An embedding row is the list of its elements (bit patterns); the
    embedding table of the text encoder is the list of its rows, row [i]
    belonging to token id [i]. *)
Definition row : Type := list Z.
Definition matrix : Type := list row.

(** [f"{n}"] for a non-negative integer. *)
Definition str_of_nat (n : nat) : string :=
  NilEmpty.string_of_uint (Nat.to_uint n).

(** <<
    token_strings = [args.token_string] +
        [f"{args.token_string}{i+1}" for i in range(args.num_vectors_per_token - 1)]
    >> *)
Definition token_strings (token_string : string) (num_vectors_per_token : nat)
  : list string :=
  [token_string] ++
  map (fun i => String.append token_string (str_of_nat (i + 1)))
      (seq 0 (num_vectors_per_token - 1)).

(** The tokenizer collaborator: its vocabulary in id order (the id of a
    token is its position) and the id returned for unknown tokens. *)
Record tokenizer : Type := mkTokenizer {
  vocab : list string;
  unk_token_id : nat
}.

(** [len(tokenizer)] *)
Definition tokenizer_len (tk : tokenizer) : nat := length (vocab tk).

Fixpoint index_of (s : string) (l : list string) : option nat :=
  match l with
  | [] => None
  | x :: l' =>
      if String.eqb x s then Some 0
      else match index_of s l' with
           | Some i => Some (S i)
           | None => None
           end
  end.

Fixpoint mem_string (s : string) (l : list string) : bool :=
  match l with
  | [] => false
  | x :: l' => String.eqb x s || mem_string s l'
  end.

Definition convert_token_to_id (tk : tokenizer) (s : string) : nat :=
  match index_of s (vocab tk) with
  | Some i => i
  | None => unk_token_id tk
  end.

(** [tokenizer.convert_tokens_to_ids(tokens)] *)
Definition convert_tokens_to_ids (tk : tokenizer) (tokens : list string) : list nat :=
  map (convert_token_to_id tk) tokens.

(** The selection loop of [add_tokens]: a new token is queued when it is
    neither in the vocabulary nor queued already. *)
Fixpoint tokens_to_add (v : list string) (new_tokens queued : list string)
  : list string :=
  match new_tokens with
  | [] => queued
  | t :: rest =>
      if mem_string t v || mem_string t queued
      then tokens_to_add v rest queued
      else tokens_to_add v rest (queued ++ [t])
  end.

(** [tokenizer.add_tokens(new_tokens)]: the queued tokens receive the ids
    [len(tokenizer)], [len(tokenizer)+1], ...; the call returns how many
    were added. The tokenizer is updated in place, so the updated
    tokenizer is returned next to the count. *)
Definition add_tokens (tk : tokenizer) (new_tokens : list string) : tokenizer * nat :=
  let queued := tokens_to_add (vocab tk) new_tokens [] in
  (mkTokenizer (vocab tk ++ queued) (unk_token_id tk), length queued).

(** [min(token_ids)] of a list with head [x]. *)
Definition min_list (x : nat) (l : list nat) : nat := fold_left Nat.min l x.

Definition conflict_msg (token_string : string) : string :=
  String.append "tokenizer has same word to token string. please use another one: "
                token_string.

Definition not_ordered_msg : string := "token ids is not ordered".

Definition not_at_end_msg (n : nat) : string :=
  String.append "token ids is not end of tokenize: " (str_of_nat n).

Section Registrar.

(** Rows that [resize_token_embeddings] creates for new ids: their
    initial content is chosen by the encoder ([fresh_row i] for row [i]). *)
Variable fresh_row : nat -> row.

(** [text_encoder.resize_token_embeddings(n)]: the first [min(old, n)]
    rows are kept, new rows are freshly initialised. *)
Definition resize_token_embeddings (n : nat) (emb : matrix) : matrix :=
  firstn n emb ++ map fresh_row (seq (length emb) (n - length emb)).

(** Lines 113-126 of [train]. The tokenizer is mutated by [add_tokens]
    before the assertions run, so the tokenizer after the call is
    returned also when an assertion fails; the embedding table is only
    touched after the three assertions. *)
Definition register_tokens (tk : tokenizer) (emb : matrix)
           (token_string : string) (num_vectors_per_token : nat)
  : tokenizer * result (list nat * matrix) :=
  let strings := token_strings token_string num_vectors_per_token in
  let (tk', num_added_tokens) := add_tokens tk strings in
  (tk',
   if negb (num_added_tokens =? num_vectors_per_token)
   then Err (AssertionError (conflict_msg token_string))
   else
     let token_ids := convert_tokens_to_ids tk' strings in
     match token_ids with
     | [] => Err IndexError
     | first :: _ =>
         let last_id := last token_ids first in
         if negb ((min_list first token_ids =? first)
                  && (Z.of_nat last_id =?
                      Z.of_nat first + Z.of_nat (length token_ids) - 1)%Z)
         then Err (AssertionError not_ordered_msg)
         else if negb (Z.of_nat (tokenizer_len tk') - 1 =? Z.of_nat last_id)%Z
         then Err (AssertionError (not_at_end_msg (tokenizer_len tk')))
         else Ok (token_ids, resize_token_embeddings (tokenizer_len tk') emb)
     end).

End Registrar.

(** [token_embeds[i] = r] on an existing row; [None] when [i] is out of
    range (Python raises [IndexError]). *)
Fixpoint set_row (m : matrix) (i : nat) (r : row) : option matrix :=
  match m, i with
  | [], _ => None
  | _ :: m', O => Some (r :: m')
  | x :: m', S i' =>
      match set_row m' i' r with
      | Some m'' => Some (x :: m'')
      | None => None
      end
  end.

(** <<
    for i, token_id in enumerate(token_ids):
        token_embeds[token_id] = token_embeds[init_token_ids[i % len(init_token_ids)]]
    >>
    [i] is the index of the head of [token_ids] in the enumeration. *)
Fixpoint init_rows (token_embeds : matrix) (init_token_ids : list nat)
         (i : nat) (token_ids : list nat) : result matrix :=
  match token_ids with
  | [] => Ok token_embeds
  | token_id :: rest =>
      if length init_token_ids =? 0 then Err ZeroDivisionError
      else
        match nth_error init_token_ids (i mod length init_token_ids) with
        | None => Err IndexError
        | Some init_id =>
            match nth_error token_embeds init_id with
            | None => Err IndexError
            | Some r =>
                match set_row token_embeds token_id r with
                | None => Err IndexError
                | Some token_embeds' =>
                    init_rows token_embeds' init_token_ids (S i) rest
                end
            end
        end
  end.

(** Lines 129-132: [if init_token_ids is not None: ...]. *)
Definition init_embeddings (token_embeds : matrix) (init_token_ids : option (list nat))
           (token_ids : list nat) : result matrix :=
  match init_token_ids with
  | Some ids => init_rows token_embeds ids 0 token_ids
  | None => Ok token_embeds
  end.

(* ===================================================================== *)
(** ** Training loop of [train] *)
(* ===================================================================== *)

(** [torch.arange(n) < b] *)
Definition arange_lt (n b : nat) : list bool :=
  map (fun i => i <? b) (seq 0 n).

(** [m[mask]] for a boolean mask over the rows: the rows at the [True]
    positions, in order. The mask must have one entry per row. *)
Fixpoint select_rows (m : matrix) (mask : list bool) : list row :=
  match m, mask with
  | r :: m', true :: mask' => r :: select_rows m' mask'
  | _ :: m', false :: mask' => select_rows m' mask'
  | _, _ => []
  end.

Definition masked_select (m : matrix) (mask : list bool) : result (list row) :=
  if length mask =? length m then Ok (select_rows m mask) else Err IndexError.

(** [m[mask] = values]: the k-th value is written to the k-th [True]
    position. *)
Fixpoint scatter_rows (m : matrix) (mask : list bool) (values : list row) : matrix :=
  match m, mask with
  | r :: m', true :: mask' =>
      match values with
      | v :: values' => v :: scatter_rows m' mask' values'
      | [] => r :: scatter_rows m' mask' []
      end
  | r :: m', false :: mask' => r :: scatter_rows m' mask' values
  | _, _ => m
  end.

Definition count_true (mask : list bool) : nat :=
  length (filter (fun b => b) mask).

Definition masked_assign (m : matrix) (mask : list bool) (values : list row)
  : result matrix :=
  if length mask =? length m
  then if length values =? count_true mask
       then Ok (scatter_rows m mask values)
       else Err RuntimeError
  else Err IndexError.

(** [math.ceil(a / b)] for non-negative integers. *)
Definition ceil_div (a b : nat) : result nat :=
  if b =? 0 then Err ZeroDivisionError else Ok ((a + b - 1) / b).

Fixpoint mapi_from {A B : Type} (f : nat -> A -> B) (i : nat) (l : list A) : list B :=
  match l with
  | [] => []
  | x :: l' => f i x :: mapi_from f (S i) l'
  end.

(** State of the loop: the live embedding table, [global_step], and two
    observation fields: the number of parameter updates the optimizer has
    applied, and, for every batch iteration executed so far (latest first),
    the value of [global_step] and the live table at the end of that
    iteration. *)
Record train_state : Type := mkState {
  weight : matrix;
  global_step : nat;
  optimizer_updates : nat;
  history : list (nat * matrix)
}.

Section Training.

(** The parameter update of one optimizer step, in place on the embedding
    table: [update epoch step w i r] is the new content of row [i], whose
    content was [r], when the table was [w]. Loss, gradients, clipping,
    learning rate and weight decay are all inside this function. *)
Variable update : nat -> nat -> matrix -> nat -> row -> row.

(** [accelerator.sync_gradients] during batch [step] of [epoch]. *)
Variable sync_gradients : nat -> nat -> bool.

(** [optimizer.step()] on the prepared optimizer: the update is applied
    only on iterations where gradients are synchronised. *)
Definition optimizer_step (epoch step : nat) (w : matrix) : matrix :=
  if sync_gradients epoch step
  then mapi_from (update epoch step w) 0 w
  else w.

(** <<
    with torch.no_grad():
        unwrap_model(text_encoder).get_input_embeddings().weight[index_no_updates] =
            orig_embeds_params[index_no_updates]
    >> *)
Definition restore_frozen (w orig_embeds_params : matrix)
           (index_no_updates : list bool) : result matrix :=
  values <- masked_select orig_embeds_params index_no_updates ;;
  masked_assign w index_no_updates values.

(** One iteration of the batch loop, up to the early-stop test. *)
Definition train_batch (orig_embeds_params : matrix) (index_no_updates : list bool)
           (epoch step : nat) (st : train_state) : result train_state :=
  let w := optimizer_step epoch step (weight st) in
  w <- restore_frozen w orig_embeds_params index_no_updates ;;
  let sync := sync_gradients epoch step in
  let global_step' := if sync then global_step st + 1 else global_step st in
  Ok (mkState w
              global_step'
              (if sync then optimizer_updates st + 1 else optimizer_updates st)
              ((global_step', w) :: history st)).

(** <<
    for step, batch in enumerate(train_dataloader):
        ...
        if global_step >= args.max_train_steps:
            break
    >>
    [steps] are the batch indices still to come. *)
Fixpoint batch_loop (orig_embeds_params : matrix) (index_no_updates : list bool)
         (max_train_steps epoch : nat) (steps : list nat) (st : train_state)
  : result train_state :=
  match steps with
  | [] => Ok st
  | step :: rest =>
      st' <- train_batch orig_embeds_params index_no_updates epoch step st ;;
      if max_train_steps <=? global_step st'
      then Ok st'
      else batch_loop orig_embeds_params index_no_updates
                      max_train_steps epoch rest st'
  end.

(** [for epoch in range(num_train_epochs):] with [epochs] the epoch
    numbers still to come and [num_batches = len(train_dataloader)]. *)
Fixpoint epoch_loop (orig_embeds_params : matrix) (index_no_updates : list bool)
         (max_train_steps num_batches : nat) (epochs : list nat) (st : train_state)
  : result train_state :=
  match epochs with
  | [] => Ok st
  | epoch :: rest =>
      st' <- batch_loop orig_embeds_params index_no_updates
                        max_train_steps epoch (seq 0 num_batches) st ;;
      epoch_loop orig_embeds_params index_no_updates
                 max_train_steps num_batches rest st'
  end.

(** Lines 279-436 of [train]: the frozen-row mask and the snapshot are
    taken from the table as it stands before the loop, the number of
    epochs is derived from [max_train_steps], then the loops run. *)
Definition train_loop (len_tokenizer : nat) (token_ids : list nat) (emb : matrix)
           (num_batches gradient_accumulation_steps max_train_steps : nat)
  : result train_state :=
  match token_ids with
  | [] => Err IndexError
  | first :: _ =>
      let index_no_updates := arange_lt len_tokenizer first in
      let orig_embeds_params := emb in
      num_update_steps_per_epoch <- ceil_div num_batches gradient_accumulation_steps ;;
      num_train_epochs <- ceil_div max_train_steps num_update_steps_per_epoch ;;
      epoch_loop orig_embeds_params index_no_updates max_train_steps num_batches
                 (seq 0 num_train_epochs) (mkState emb 0 0 [])
  end.

End Training.

(** Gradient accumulation as the accelerator schedules it: gradients are
    synchronised on every [gradient_accumulation_steps]-th batch of an epoch
    and on the last batch of the data loader. *)
Definition accumulate_sync (gradient_accumulation_steps num_batches : nat)
           (epoch step : nat) : bool :=
  ((step + 1) mod gradient_accumulation_steps =? 0) || (step + 1 =? num_batches).

(* ===================================================================== *)
(** ** Checkpoint layouts and concrete inputs used in the statements *)
(* ===================================================================== *)

(** [type(emb) == torch.Tensor] *)
Definition is_plain_tensor (o : pyobj) : bool :=
  match o with PyTensor _ => true | _ => false end.

(** The mapping whose values a pickled checkpoint is read from, for the two
    layouts the loader accepts: the payload itself when it has no
    [string_to_param] entry, otherwise the dict nested under that entry
    (held directly or as the [_parameters] of a module). *)
Inductive value_table : list (string * pyobj) -> list (string * pyobj) -> Prop :=
| table_direct items :
    dict_get "string_to_param" items = None ->
    value_table items items
| table_nested items nested :
    dict_get "string_to_param" items = Some (PyDict nested) ->
    value_table items nested
| table_nested_module items nested :
    dict_get "string_to_param" items = Some (PyModule nested) ->
    value_table items nested.

(** The pickled payloads that the two type checks of [load_weights] are
    written for: a payload that is not a dict, and a dict whose value table
    (not the payload itself when there is a [string_to_param] entry) starts
    with something that is not a plain tensor. A dict whose
    [string_to_param] entry holds no mapping, and a dict whose value table
    is empty, are not of this kind. *)
Inductive fails_type_checks : pyobj -> Prop :=
| fails_dict_check o :
    is_dict o = false -> fails_type_checks o
| fails_tensor_check items k v rest :
    value_table items ((k, v) :: rest) ->
    is_plain_tensor v = false ->
    fails_type_checks (PyDict items).

(** The error kinds of a rejected weight file. *)
Definition is_invalid_weight_file_error (e : pyerror) : bool :=
  match e with ValueError _ => true | _ => false end.

Definition is_missing_file_error (e : pyerror) : bool :=
  match e with FileNotFoundError _ => true | _ => false end.

(** Sample tensors and files. *)
Definition sample_emb : tensor := mkTensor Float32 [2; 3] [1; 2; 3; 4; 5; 6]%Z.
Definition sample_emb' : tensor := mkTensor Float32 [2; 3] [7; 8; 9; 10; 11; 12]%Z.
Definition sample_vec : tensor := mkTensor Float32 [3] [1; 2; 3]%Z.

(** A conversion that keeps the low 16 bits when narrowing. *)
Definition sample_convert (src dst : dtype) (x : Z) : Z :=
  match dst with
  | Float32 => x
  | _ => Z.land x 65535
  end.

Definition fs_not_a_dict : filesystem :=
  write_file empty_fs "emb.pt" (PickleFile (PyOther "[1, 2, 3]")).

Definition fs_legacy : filesystem :=
  write_file empty_fs "emb.pt"
    (PickleFile (PyDict [("string_to_token", PyDict [("*", PyOther "265")]);
                         ("string_to_param", PyDict [("*", PyTensor sample_emb)]);
                         ("name", PyOther "concept")])).

Definition fs_rank1 : filesystem :=
  write_file empty_fs "emb.safetensors" (SafetensorsArchive [("emb_params", sample_vec)]).

Definition fs_other_key : filesystem :=
  write_file empty_fs "emb.pt" (PickleFile (PyDict [("clip_l", PyTensor sample_emb)])).

(** A mapping whose first value is a tensor and which also carries a
    [string_to_param] entry. *)
Definition fs_two_entries : filesystem :=
  write_file empty_fs "emb.pt"
    (PickleFile (PyDict [("emb_params", PyTensor sample_emb);
                         ("string_to_param", PyDict [("*", PyTensor sample_emb')])])).

(** [stores_tensor file c t]: the content [c] of [file] keeps [t] as the
    first value of a layout the loader accepts for the extension of [file]. *)
Inductive stores_tensor (file : string) : file_content -> tensor -> Prop :=
| stores_archive k t rest :
    is_safetensors file = true ->
    stores_tensor file (SafetensorsArchive ((k, t) :: rest)) t
| stores_pickle items k t rest :
    is_safetensors file = false ->
    value_table items ((k, PyTensor t) :: rest) ->
    stores_tensor file (PickleFile (PyDict items)) t.

(** The generated strings that the vocabulary does not have yet. *)
Definition absent_strings (tk : tokenizer) (strings : list string) : list string :=
  filter (fun s => negb (mem_string s (vocab tk))) strings.

(** A three-word vocabulary with a three-row table of width two. *)
Definition sample_tokenizer : tokenizer := mkTokenizer ["<unk>"; "a"; "cat"] 0.
Definition sample_table : matrix := [[10; 11]; [20; 21]; [30; 31]]%Z.
Definition sample_fresh_row (i : nat) : row := [Z.of_nat i; 0%Z].

(** The sample table after three tokens were registered. *)
Definition sample_resized : matrix :=
  resize_token_embeddings sample_fresh_row 6 sample_table.

(** ** Predicates on the state of the training loop *)

(** [rows_kept base K orig w]: the table [w] has the rows of [orig] and
    agrees with it on every row outside the block [base .. base+K-1]. *)
Definition rows_kept (base K : nat) (orig w : matrix) : Prop :=
  length w = length orig /\
  forall r, r < base \/ base + K <= r -> nth_error w r = nth_error orig r.

(** Number of batches of [steps] on which gradients are synchronised. *)
Definition sync_count (sync_gradients : nat -> nat -> bool) (epoch : nat)
           (steps : list nat) : nat :=
  length (filter (sync_gradients epoch) steps).

(** The loop has not reached [max_train_steps] yet: every iteration so far
    ended below the maximum, and each increment of [global_step] went with
    one parameter update. *)
Definition running (n max_train_steps : nat) (st : train_state) : Prop :=
  global_step st < max_train_steps /\
  optimizer_updates st = global_step st /\
  Forall (fun e => fst e < max_train_steps) (history st) /\
  length (weight st) = n.

(** The loop has stopped at [max_train_steps]: the counter and the number
    of parameter updates equal the maximum, the latest iteration is the one
    that reached it and every earlier iteration ended below it. *)
Definition stopped (max_train_steps : nat) (st : train_state) : Prop :=
  global_step st = max_train_steps /\
  optimizer_updates st = max_train_steps /\
  match history st with
  | [] => max_train_steps = 0
  | e :: earlier =>
      fst e = max_train_steps /\
      Forall (fun e' => fst e' < max_train_steps) earlier
  end.

(** An update that moves every row, frozen or not. *)
Definition sample_update (epoch step : nat) (w : matrix) (i : nat) (r : row) : row :=
  map (fun x => (x + Z.of_nat (epoch + step + i + 1))%Z) r.

(** The tensor that [save_weights] hands to the writer. *)
Definition stored_value (convert : dtype -> dtype -> Z -> Z) (t : tensor)
           (save_dtype : option dtype) : tensor :=
  match save_dtype with
  | Some d => tensor_to convert d t
  | None => t
  end.

(** The object that [save_weights] hands to the writer: the argument itself
    without [save_dtype], its detached and converted clone with one. *)
Definition written_object (convert : dtype -> dtype -> Z -> Z) (o : tensor_object)
           (save_dtype : option dtype) : tensor_object :=
  match save_dtype with
  | Some d => detach_clone_to convert d o
  | None => o
  end.

(** The writer chosen for [file] accepts the object [w]: the file can be
    created, and the safetensors writer gets a contiguous tensor, the
    pickle writer a file name with a non-empty archive name. *)
Definition writer_accepts (create_error : string -> option pyerror) (file : string)
           (w : tensor_object) : bool :=
  match create_error file with
  | Some _ => false
  | None =>
      if is_safetensors file then is_contiguous (obj_layout w)
      else negb (String.eqb (torch_archive_name file) EmptyString)
  end.

(** What was written for [w] in [file] passes the tensor type check of
    [load_weights]: an archive yields plain tensors, a pickle yields the
    object as it was. *)
Definition loads_back (file : string) (w : tensor_object) : bool :=
  is_safetensors file || negb (obj_is_parameter w).

(** An environment in which every file can be created. *)
Definition no_error : string -> option pyerror := fun _ => None.

Definition sample_object : tensor_object := mkObject sample_emb Contiguous false.
Definition sample_transposed : tensor_object := mkObject sample_emb DensePermuted false.
Definition sample_parameter : tensor_object := mkObject sample_emb Contiguous true.
Definition sample_vec_object : tensor_object := mkObject sample_vec Contiguous false.

(** A dict whose first value is not a tensor and whose [string_to_param]
    entry holds a tensor dict. *)
Definition fs_name_first : filesystem :=
  write_file empty_fs "emb.pt"
    (PickleFile (PyDict [("name", PyOther "concept");
                         ("string_to_param", PyDict [("*", PyTensor sample_emb)])])).

(** The loop state in which the live table and every table recorded so far
    keep the rows outside the trainable block. *)
Definition all_kept (n base K : nat) (orig : matrix) (st : train_state) : Prop :=
  length (weight st) = n /\
  rows_kept base K orig (weight st) /\
  Forall (fun e => rows_kept base K orig (snd e)) (history st).

(* ===================================================================== *)
(** ** Loading pretrained rows, extracting trained rows, final checkpoint *)
(* ===================================================================== *)

(** [k] consecutive slices of width [d] of a row-major element list. *)
Fixpoint chunks (k d : nat) (data : list Z) : list row :=
  match k with
  | O => []
  | S k' => firstn d data :: chunks k' d (skipn d data)
  end.

(** The sub-tensors that [for embedding in embeddings] yields, for a rank-2
    tensor: its rows. Tensors of another rank are not covered ([None]). *)
Definition tensor_rows (t : tensor) : option (list row) :=
  match t_shape t with
  | [k; d] => Some (chunks k d (t_data t))
  | _ => None
  end.

Definition weights_mismatch_msg (n : nat) : string :=
  String.append "num_vectors_per_token is mismatch for weights: " (str_of_nat n).

(** [w[token_ids]] for a list of row indices: the selected rows, in the
    order of the indices; an index past the end raises [IndexError]. *)
Fixpoint gather_rows (w : matrix) (ids : list nat) : result (list row) :=
  match ids with
  | [] => Ok []
  | i :: rest =>
      match nth_error w i with
      | None => Err IndexError
      | Some r =>
          rows <- gather_rows w rest ;;
          Ok (r :: rows)
      end
  end.

(** [os.path.join(a, b)] on POSIX paths. *)
Definition path_join (a b : string) : string :=
  if String.prefix "/" b then b
  else if String.eqb a "" then String.append a b
  else if String.eqb (String.substring (String.length a - 1) 1 a) "/"
       then String.append a b
       else String.append a (String.append "/" b).

Section Checkpoints.

(** Element conversion of [Tensor.to] and of assignments between tensors
    of different element types. *)
Variable convert : dtype -> dtype -> Z -> Z.

(** The operating system: what creating a file raises, if anything, once
    the output directory exists, and what creating a directory other than
    the empty path raises, if anything. *)
Variable create_error : string -> option pyerror.
Variable makedirs_error : string -> option pyerror.

(** [os.makedirs(dir, exist_ok=True)]: the empty path names no directory. *)
Definition os_makedirs (dir : string) : result unit :=
  if String.eqb dir EmptyString then Err (FileNotFoundError EmptyString)
  else match makedirs_error dir with
       | Some e => Err e
       | None => Ok tt
       end.

(** Element type and row width of the text encoder's embedding table, whose
    rows are the lists of a [matrix]. *)
Variable table_dtype : dtype.
Variable embed_dim : nat.

(** The elements [value], of type [src], converted to the element type of
    the table. *)
Definition convert_row (src : dtype) (value : list Z) : row :=
  if dtype_eqb src table_dtype then value
  else map (convert src table_dtype) value.

(** The value that [token_embeds[token_id] = embedding] stores in a row
    [target], for a rank-1 [embedding] with elements [value] of type [src]:
    the converted elements, broadcast when there is a single one, rejected
    when the widths differ otherwise. *)
Definition assigned_row (src : dtype) (target : row) (value : list Z) : result row :=
  let v := convert_row src value in
  if length v =? length target then Ok v
  else match v with
       | [x] => Ok (repeat x (length target))
       | _ => Err RuntimeError
       end.

(** <<
    for token_id, embedding in zip(token_ids, embeddings):
        token_embeds[token_id] = embedding
    >> *)
Fixpoint assign_rows (src : dtype) (token_embeds : matrix)
         (pairs : list (nat * row)) : result matrix :=
  match pairs with
  | [] => Ok token_embeds
  | (token_id, embedding) :: rest =>
      match nth_error token_embeds token_id with
      | None => Err IndexError
      | Some target =>
          v <- assigned_row src target embedding ;;
          match set_row token_embeds token_id v with
          | None => Err IndexError
          | Some token_embeds' => assign_rows src token_embeds' rest
          end
      end
  end.

(** Lines 136-143 of [train]:
    <<
    if args.weights is not None:
        embeddings = load_weights(args.weights)
        assert len(token_ids) == len(embeddings), ...
        for token_id, embedding in zip(token_ids, embeddings):
            token_embeds[token_id] = embedding
    >>
    The outer [option] is [None] when the loaded tensor has a rank that
    [tensor_rows] does not cover. *)
Definition load_initial_weights (fs : filesystem) (weights : option string)
           (token_embeds : matrix) (token_ids : list nat) : option (result matrix) :=
  match weights with
  | None => Some (Ok token_embeds)
  | Some file =>
      match load_weights fs file with
      | Err e => Some (Err e)
      | Ok embeddings =>
          match tensor_rows embeddings with
          | None => None
          | Some rows =>
              Some (if length token_ids =? length rows
                    then assign_rows (t_dtype embeddings) token_embeds
                                     (combine token_ids rows)
                    else Err (AssertionError (weights_mismatch_msg (length rows))))
          end
      end
  end.

(** [text_encoder.get_input_embeddings().weight[token_ids].data.detach().clone()] *)
Definition updated_embs (w : matrix) (token_ids : list nat) : result tensor :=
  rows <- gather_rows w token_ids ;;
  Ok (mkTensor table_dtype [length token_ids; embed_dim] (concat rows)).

(** Lines 483-495 of [train], on the main process:
    <<
    updated_embs = text_encoder.get_input_embeddings().weight[token_ids].data.detach().clone()
    os.makedirs(args.output_dir, exist_ok=True)
    ckpt_name = model_name + "." + args.save_model_as
    ckpt_file = os.path.join(args.output_dir, ckpt_name)
    save_weights(ckpt_file, updated_embs, save_dtype)
    >>
    [model_name] is the name chosen on line 490. The extracted rows are a
    fresh, contiguous, plain tensor. Returns the file system after the
    write and the path written. *)
Definition save_trained_model (fs : filesystem) (output_dir model_name save_model_as : string)
           (w : matrix) (token_ids : list nat) (save_dtype : option dtype)
  : result (filesystem * string) :=
  embs <- updated_embs w token_ids ;;
  _ <- os_makedirs output_dir ;;
  let ckpt_name := String.append model_name (String.append "." save_model_as) in
  let ckpt_file := path_join output_dir ckpt_name in
  fs' <- save_weights convert create_error fs ckpt_file
                      (mkObject embs Contiguous false) save_dtype ;;
  Ok (fs', ckpt_file).

End Checkpoints.

(** The path of the final checkpoint (lines 491-492). *)
Definition final_checkpoint_file (output_dir model_name save_model_as : string) : string :=
  path_join output_dir (String.append model_name (String.append "." save_model_as)).

(** Lines 264-266 of [train]:
    <<
    if args.max_train_epochs is not None:
        args.max_train_steps = args.max_train_epochs * math.ceil(
            len(train_dataloader) / accelerator.num_processes / args.gradient_accumulation_steps)
    >> *)
Definition override_max_train_steps (max_train_epochs : option nat)
           (num_batches num_processes gradient_accumulation_steps max_train_steps : nat)
  : result nat :=
  match max_train_epochs with
  | None => Ok max_train_steps
  | Some epochs =>
      if num_processes =? 0 then Err ZeroDivisionError
      else
        per_epoch <- ceil_div num_batches (num_processes * gradient_accumulation_steps) ;;
        Ok (epochs * per_epoch)
  end.

(** A character of a string. *)
Fixpoint has_char (c : ascii) (s : string) : bool :=
  match s with
  | EmptyString => false
  | String a s' => Ascii.eqb a c || has_char c s'
  end.

(** Some character of the string differs from [c]. *)
Fixpoint has_other_char (c : ascii) (s : string) : bool :=
  match s with
  | EmptyString => false
  | String a s' => negb (Ascii.eqb a c) || has_other_char c s'
  end.

(** A two-row table of width two whose rows are to be overwritten. *)
Definition sample_target : matrix := [[0; 0]; [0; 0]; [0; 0]; [0; 0]; [0; 0]]%Z.

(** The last two statements of [load_weights] on the tensor read. *)
Definition promote (emb : tensor) : tensor :=
  if rank emb =? 1 then unsqueeze0 emb else emb.

Definition fs_empty_dict : filesystem :=
  write_file empty_fs "emb.pt" (PickleFile (PyDict [])).

Definition fs_nested_scalar : filesystem :=
  write_file empty_fs "emb.pt"
    (PickleFile (PyDict [("string_to_param", PyOther "3"); ("name", PyOther "concept")])).

(** The elements of a row after a save with [save_dtype] from a table of
    type [table_dtype] and a load back into a table of that type. *)
Definition there_and_back (convert : dtype -> dtype -> Z -> Z) (table_dtype : dtype)
           (save_dtype : option dtype) (r : row) : row :=
  match save_dtype with
  | None => r
  | Some d =>
      if dtype_eqb table_dtype d then r
      else map (convert d table_dtype) (map (convert table_dtype d) r)
  end.

Definition fs_two_rows : filesystem :=
  write_file empty_fs "emb.pt" (PickleFile (PyDict [("emb_params", PyTensor sample_emb)])).

Definition sample_wide : matrix := [[0; 0; 0]; [0; 0; 0]; [0; 0; 0]; [0; 0; 0]]%Z.
Definition sample_trained : matrix := [[1; 2; 3]; [4; 5; 6]; [7; 8; 9]]%Z.

(* ===================================================================== *)
(** ** Caption templates *)
(* ===================================================================== *)

Definition imagenet_templates_small : list string :=
  ["a photo of a {}";
   "a rendering of a {}";
   "a cropped photo of the {}";
   "the photo of a {}";
   "a photo of a clean {}";
   "a photo of a dirty {}";
   "a dark photo of the {}";
   "a photo of my {}";
   "a photo of the cool {}";
   "a close-up photo of a {}";
   "a bright photo of the {}";
   "a cropped photo of a {}";
   "a photo of the {}";
   "a good photo of the {}";
   "a photo of one {}";
   "a close-up photo of the {}";
   "a rendition of the {}";
   "a photo of the clean {}";
   "a rendition of a {}";
   "a photo of a nice {}";
   "a good photo of a {}";
   "a photo of the nice {}";
   "a photo of the small {}";
   "a photo of the weird {}";
   "a photo of the large {}";
   "a photo of a cool {}";
   "a photo of a small {}"].

Definition imagenet_style_templates_small : list string :=
  ["a painting in the style of {}";
   "a rendering in the style of {}";
   "a cropped painting in the style of {}";
   "the painting in the style of {}";
   "a clean painting in the style of {}";
   "a dirty painting in the style of {}";
   "a dark painting in the style of {}";
   "a picture in the style of {}";
   "a cool painting in the style of {}";
   "a close-up painting in the style of {}";
   "a bright painting in the style of {}";
   "a cropped painting in the style of {}";
   "a good painting in the style of {}";
   "a close-up painting in the style of {}";
   "a rendition in the style of {}";
   "a nice painting in the style of {}";
   "a small painting in the style of {}";
   "a weird painting in the style of {}";
   "a large painting in the style of {}"].

(** [sep.join(strings)] *)
Fixpoint join (sep : string) (strings : list string) : string :=
  match strings with
  | [] => EmptyString
  | [s] => s
  | s :: rest => String.append s (String.append sep (join sep rest))
  end.

Definition prepend (s : string) (r : option (result string)) : option (result string) :=
  match r with
  | Some (Ok t) => Some (Ok (String.append s t))
  | _ => r
  end.

Definition single_open_msg : string := "Single '{' encountered in format string".
Definition single_close_msg : string := "Single '}' encountered in format string".

(** [tmpl.format(arg)] with one positional string argument, for format
    strings made of literal text, the escapes [{{] and [}}] and automatic
    fields [{}]; [used] tells whether the argument has been consumed. A
    second automatic field has no argument left ([IndexError]), a brace
    alone is a [ValueError]; fields with a name, an index, a conversion or
    a format specification are not covered ([None]). *)
Fixpoint format_from (tmpl arg : string) (used : bool) : option (result string) :=
  match tmpl with
  | EmptyString => Some (Ok EmptyString)
  | String c rest =>
      if Ascii.eqb c "{"%char then
        match rest with
        | EmptyString => Some (Err (ValueError single_open_msg))
        | String c' rest' =>
            if Ascii.eqb c' "{"%char then prepend "{" (format_from rest' arg used)
            else if Ascii.eqb c' "}"%char then
              if used then Some (Err IndexError)
              else prepend arg (format_from rest' arg true)
            else None
        end
      else if Ascii.eqb c "}"%char then
        match rest with
        | EmptyString => Some (Err (ValueError single_close_msg))
        | String c' rest' =>
            if Ascii.eqb c' "}"%char then prepend "}" (format_from rest' arg used)
            else Some (Err (ValueError single_close_msg))
        end
      else prepend (String c EmptyString) (format_from rest arg used)
  end.

Definition format (tmpl arg : string) : option (result string) :=
  format_from tmpl arg false.

(** <<
    captions = []
    for tmpl in templates:
        captions.append(tmpl.format(replace_to))
    >> *)
Fixpoint format_all (templates : list string) (replace_to : string)
  : option (result (list string)) :=
  match templates with
  | [] => Some (Ok [])
  | tmpl :: rest =>
      match format tmpl replace_to with
      | None => None
      | Some (Err e) => Some (Err e)
      | Some (Ok caption) =>
          match format_all rest replace_to with
          | Some (Ok captions) => Some (Ok (caption :: captions))
          | other => other
          end
      end
  end.

(** What [train] hands to [train_dataset_group.add_replacement]: a list of
    captions (template mode) or a replacement string. *)
Inductive replacement : Type :=
| ReplaceByCaptions (captions : list string)
| ReplaceByString (s : string).

(** Outcome of the caption set-up: the call made to [add_replacement], if
    any, with its two arguments, and [prompt_replacement]. *)
Record caption_plan : Type := mkPlan {
  added_replacement : option (string * replacement);
  prompt_replacement : option (string * string)
}.

(** Line 81 and lines 193-213 of [train]. *)
Definition caption_setup (use_object_template use_style_template : bool)
           (token_string : string) (num_vectors_per_token : nat)
  : option (result caption_plan) :=
  let use_template := use_object_template || use_style_template in
  let strings := token_strings token_string num_vectors_per_token in
  if use_template then
    let templates := if use_object_template then imagenet_templates_small
                     else imagenet_style_templates_small in
    let replace_to := join " " strings in
    match format_all templates replace_to with
    | None => None
    | Some (Err e) => Some (Err e)
    | Some (Ok captions) =>
        Some (Ok (mkPlan (Some (EmptyString, ReplaceByCaptions captions))
                         (if 1 <? num_vectors_per_token
                          then Some (token_string, replace_to) else None)))
    end
  else if 1 <? num_vectors_per_token then
    let replace_to := join " " strings in
    Some (Ok (mkPlan (Some (token_string, ReplaceByString replace_to))
                     (Some (token_string, replace_to))))
  else Some (Ok (mkPlan None None)).

(** The text of a template in front of its final field. *)
Definition template_text (tmpl : string) : string :=
  String.substring 0 (String.length tmpl - 2) tmpl.

Definition has_brace (s : string) : bool :=
  has_char "{"%char s || has_char "}"%char s.

(** A template is brace-free text followed by one automatic field. *)
Definition well_formed_template (tmpl : string) : bool :=
  String.eqb tmpl (String.append (template_text tmpl) "{}")
  && negb (has_brace (template_text tmpl)).


(** A complete sample run: two tokens registered on the sample vocabulary,
    initialised from the words with ids 2 and 1, trained for two steps. *)
Definition sample_initialised : matrix :=
  Eval vm_compute in
    match init_embeddings (resize_token_embeddings sample_fresh_row 5 sample_table)
                          (Some [2; 1]) [3; 4] with
    | Ok m => m
    | Err _ => []
    end.

Definition sample_final_state : train_state :=
  Eval vm_compute in
    match train_loop sample_update (accumulate_sync 1 2) 5 [3; 4] sample_initialised 2 1 2 with
    | Ok st => st
    | Err _ => mkState [] 0 0 []
    end.

Definition fs_rank1_pt : filesystem :=
  write_file empty_fs "vec.pt" (PickleFile (PyDict [("emb_params", PyTensor sample_vec)])).

(* ===================================================================== *)
(** ** Weight codec: proofs *)
(* ===================================================================== *)

Lemma write_file_same (fs : filesystem) (file : string) (c : file_content) :
  write_file fs file c file = Some c.
Proof. unfold write_file. now rewrite String.eqb_refl. Qed.

Lemma value_table_select (items table : list (string * pyobj)) :
  value_table items table ->
  select_string_to_param items = PyDict table.
Proof.
  intros H. unfold select_string_to_param.
  destruct H as [items H | items nested H | items nested H]; now rewrite H.
Qed.

(** What [load_weights] does once the value table is known. *)
Lemma load_weights_pickle_table (fs : filesystem) (file : string)
      (items table : list (string * pyobj)) :
  is_safetensors file = false ->
  fs file = Some (PickleFile (PyDict items)) ->
  value_table items table ->
  load_weights fs file =
  (emb <- py_next (dict_values table) ;;
   match emb with
   | PyTensor emb => Ok (if rank emb =? 1 then unsqueeze0 emb else emb)
   | _ => Err (ValueError (not_tensor_msg file))
   end).
Proof.
  intros Hext Hfile Htable.
  unfold load_weights, torch_load. rewrite Hext, Hfile. cbn [bind].
  rewrite (value_table_select _ _ Htable). reflexivity.
Qed.

Lemma load_weights_archive (fs : filesystem) (file : string)
      (k : string) (t : tensor) (rest : list (string * tensor)) :
  is_safetensors file = true ->
  fs file = Some (SafetensorsArchive ((k, t) :: rest)) ->
  load_weights fs file = Ok (if rank t =? 1 then unsqueeze0 t else t).
Proof.
  intros Hext Hfile. unfold load_weights, load_file.
  rewrite Hext, Hfile. reflexivity.
Qed.

Lemma load_weights_stored (fs : filesystem) (file : string)
      (c : file_content) (t : tensor) :
  fs file = Some c ->
  stores_tensor file c t ->
  load_weights fs file = Ok (if rank t =? 1 then unsqueeze0 t else t).
Proof.
  intros Hfile Hst. revert Hfile.
  destruct Hst as [k t rest Hext | items k t rest Hext Htable]; intros Hfile.
  - now apply load_weights_archive with (k := k) (rest := rest).
  - now rewrite (load_weights_pickle_table _ _ _ _ Hext Hfile Htable).
Qed.

Lemma load_weights_missing (fs : filesystem) (file : string) :
  fs file = None ->
  load_weights fs file = Err (FileNotFoundError file).
Proof.
  intros Hfile. unfold load_weights, load_file, torch_load. rewrite Hfile.
  now destruct (is_safetensors file).
Qed.

Section CodecFacts.

Variable convert : dtype -> dtype -> Z -> Z.
Variable create_error : string -> option pyerror.

Lemma tensor_to_shape (d : dtype) (t : tensor) :
  t_shape (tensor_to convert d t) = t_shape t.
Proof. unfold tensor_to. now destruct (dtype_eqb (t_dtype t) d). Qed.

Lemma written_object_tensor (o : tensor_object) (save_dtype : option dtype) :
  obj_tensor (written_object convert o save_dtype)
  = stored_value convert (obj_tensor o) save_dtype.
Proof. now destruct save_dtype. Qed.

(** What an accepted write leaves in the file. *)
Lemma save_weights_written (fs : filesystem) (file : string) (o : tensor_object)
      (save_dtype : option dtype) :
  writer_accepts create_error file (written_object convert o save_dtype) = true ->
  save_weights convert create_error fs file o save_dtype
  = Ok (write_file fs file
          (if is_safetensors file
           then SafetensorsArchive
                  [("emb_params", obj_tensor (written_object convert o save_dtype))]
           else PickleFile
                  (PyDict [("emb_params", pickled (written_object convert o save_dtype))]))).
Proof.
  unfold writer_accepts, save_weights, save_file, torch_save.
  destruct (create_error file) as [e|] eqn:Hcreate; [discriminate|].
  destruct (is_safetensors file); intros Hacc.
  - destruct save_dtype as [d|]; cbn in Hacc |- *; rewrite Hacc; reflexivity.
  - apply negb_true_iff in Hacc. rewrite Hacc.
    destruct save_dtype; reflexivity.
Qed.

Lemma save_weights_stores (fs : filesystem) (file : string) (o : tensor_object)
      (save_dtype : option dtype) :
  writer_accepts create_error file (written_object convert o save_dtype) = true ->
  loads_back file (written_object convert o save_dtype) = true ->
  exists fs' c,
    save_weights convert create_error fs file o save_dtype = Ok fs' /\
    fs' file = Some c /\
    stores_tensor file c (stored_value convert (obj_tensor o) save_dtype).
Proof.
  intros Hacc Hback. rewrite (save_weights_written fs file o save_dtype Hacc).
  rewrite <- written_object_tensor.
  eexists. eexists. split; [reflexivity|]. split; [apply write_file_same|].
  unfold loads_back in Hback.
  destruct (is_safetensors file) eqn:Hext.
  - now constructor.
  - cbn in Hback. apply negb_true_iff in Hback. unfold pickled. rewrite Hback.
    apply stores_pickle with (k := "emb_params") (rest := []); [exact Hext|].
    now apply table_direct.
Qed.

(** C2, amended: when the writer chosen by the extension accepts the object
    it is handed (the file can be created; the safetensors writer gets a
    contiguous tensor, the pickle writer a file name with a non-empty
    archive name) and what it writes passes the type check on load (an
    archive, or a pickle of a plain tensor), [save_weights] succeeds and
    [load_weights] on the file returns the saved [K x D] tensor, converted
    to [save_dtype] when one is given and untouched otherwise, bit for
    bit. *)
Theorem save_load_roundtrip (fs : filesystem) (file : string) (o : tensor_object)
        (save_dtype : option dtype) (K D : nat) :
  K >= 1 -> D >= 1 ->
  t_shape (obj_tensor o) = [K; D] ->
  writer_accepts create_error file (written_object convert o save_dtype) = true ->
  loads_back file (written_object convert o save_dtype) = true ->
  exists fs',
    save_weights convert create_error fs file o save_dtype = Ok fs' /\
    load_weights fs' file =
    Ok (match save_dtype with
        | Some d => tensor_to convert d (obj_tensor o)
        | None => obj_tensor o
        end).
Proof.
  intros _ _ Hshape Hacc Hback.
  destruct (save_weights_stores fs file o save_dtype Hacc Hback)
    as [fs' [c [Hsave [Hc Hst]]]].
  exists fs'. split; [exact Hsave|].
  rewrite (load_weights_stored _ _ _ _ Hc Hst).
  assert (Hrank : rank (stored_value convert (obj_tensor o) save_dtype) = 2).
  { unfold rank, stored_value. destruct save_dtype.
    - now rewrite tensor_to_shape, Hshape.
    - now rewrite Hshape. }
  now rewrite Hrank.
Qed.

End CodecFacts.

Lemma save_load_roundtrip_witness :
  (exists fs',
      save_weights sample_convert no_error empty_fs "out/emb.safetensors"
                   sample_object (Some Float16) = Ok fs' /\
      load_weights fs' "out/emb.safetensors"
      = Ok (tensor_to sample_convert Float16 sample_emb)) /\
  (exists fs',
      save_weights sample_convert no_error empty_fs "out/emb.pt"
                   sample_transposed None = Ok fs' /\
      load_weights fs' "out/emb.pt" = Ok sample_emb).
Proof.
  split.
  - apply (save_load_roundtrip sample_convert no_error empty_fs "out/emb.safetensors"
             sample_object (Some Float16) 2 3); (lia || reflexivity).
  - apply (save_load_roundtrip sample_convert no_error empty_fs "out/emb.pt"
             sample_transposed None 2 3); (lia || reflexivity).
Defined.

(** C2 as stated fails. A transposed (dense, not contiguous) [2 x 3]
    tensor saved without [save_dtype] under the [.safetensors] extension is
    refused by the writer, while the same object round-trips through the
    other branch; an [nn.Parameter] saved without [save_dtype] under [.pt]
    is written but rejected by the type check of [load_weights]; and the
    pickle writer refuses the file name [out/.pt]. *)
Lemma save_load_roundtrip_counterexample :
  t_shape (obj_tensor sample_transposed) = [2; 3] /\
  save_weights sample_convert no_error empty_fs "out/emb.safetensors"
               sample_transposed None
  = Err (ValueError (non_contiguous_msg "emb_params")) /\
  (exists fs',
      save_weights sample_convert no_error empty_fs "out/emb.pt" sample_parameter None
      = Ok fs' /\
      load_weights fs' "out/emb.pt" = Err (ValueError (not_tensor_msg "out/emb.pt"))) /\
  save_weights sample_convert no_error empty_fs "out/.pt" sample_object None
  = Err RuntimeError.
Proof.
  split; [reflexivity|]. split; [reflexivity|]. split; [|reflexivity].
  eexists. split; reflexivity.
Qed.

(** C7, amended: a pickled weight file whose payload is not a dict, or is
    a dict whose value table (the payload itself without a
    [string_to_param] entry, the mapping under that entry otherwise) starts
    with something that is not a plain tensor, is rejected with a
    [ValueError]; a missing file is rejected with [FileNotFoundError], so
    the two kinds of failure are told apart. *)
Theorem load_weights_malformed (fs missing_fs : filesystem) (file : string) (o : pyobj) :
  is_safetensors file = false ->
  fs file = Some (PickleFile o) ->
  fails_type_checks o ->
  missing_fs file = None ->
  (load_weights fs file = Err (ValueError (not_dict_msg file)) \/
   load_weights fs file = Err (ValueError (not_tensor_msg file))) /\
  (exists e, load_weights fs file = Err e /\
             is_invalid_weight_file_error e = true /\
             is_missing_file_error e = false) /\
  (exists e', load_weights missing_fs file = Err e' /\
              is_missing_file_error e' = true /\
              is_invalid_weight_file_error e' = false).
Proof.
  intros Hext Hfile Hbad Hmissing.
  assert (Hload : load_weights fs file = Err (ValueError (not_dict_msg file)) \/
                  load_weights fs file = Err (ValueError (not_tensor_msg file))).
  { revert Hfile. destruct Hbad as [o Hnd | items k v rest Htable Hv]; intros Hfile.
    - left. unfold load_weights, torch_load. rewrite Hext, Hfile. cbn [bind].
      destruct o; try reflexivity. discriminate Hnd.
    - right. rewrite (load_weights_pickle_table _ _ _ _ Hext Hfile Htable).
      cbn. destruct v; try reflexivity. discriminate Hv. }
  split; [exact Hload|]. split.
  - destruct Hload as [H | H]; rewrite H; eexists; repeat split.
  - rewrite (load_weights_missing _ _ Hmissing). eexists; repeat split.
Qed.

Lemma load_weights_malformed_witness :
  (load_weights fs_not_a_dict "emb.pt" = Err (ValueError (not_dict_msg "emb.pt")) \/
   load_weights fs_not_a_dict "emb.pt" = Err (ValueError (not_tensor_msg "emb.pt"))) /\
  (exists e, load_weights fs_not_a_dict "emb.pt" = Err e /\
             is_invalid_weight_file_error e = true /\
             is_missing_file_error e = false) /\
  (exists e', load_weights empty_fs "emb.pt" = Err e' /\
              is_missing_file_error e' = true /\
              is_invalid_weight_file_error e' = false).
Proof.
  apply (load_weights_malformed fs_not_a_dict empty_fs "emb.pt" (PyOther "[1, 2, 3]")).
  - reflexivity.
  - reflexivity.
  - apply fails_dict_check. reflexivity.
  - reflexivity.
Defined.

(** C7 as stated fails on payloads that are mappings with a first value
    that is not a tensor. Under a [string_to_param] entry that holds a
    number the load fails, but with [AttributeError], not with the error of
    a malformed file; and when the first value is a name and the
    [string_to_param] entry holds a tensor dict, the load succeeds. *)
Lemma load_weights_malformed_counterexample :
  fs_nested_scalar "emb.pt"
  = Some (PickleFile (PyDict [("string_to_param", PyOther "3");
                              ("name", PyOther "concept")])) /\
  is_plain_tensor (PyOther "3") = false /\
  load_weights fs_nested_scalar "emb.pt" = Err AttributeError /\
  is_invalid_weight_file_error AttributeError = false /\
  fs_name_first "emb.pt"
  = Some (PickleFile (PyDict [("name", PyOther "concept");
                              ("string_to_param", PyDict [("*", PyTensor sample_emb)])])) /\
  is_plain_tensor (PyOther "concept") = false /\
  load_weights fs_name_first "emb.pt" = Ok sample_emb.
Proof. repeat split. Qed.

(** C8: a pickled file in the legacy layout, whose payload holds under
    [string_to_param] a dict with a [K x D] tensor as first value, loads to
    that very tensor. *)
Theorem load_weights_legacy (fs : filesystem) (file : string)
        (items rest : list (string * pyobj)) (k : string) (t : tensor) (K D : nat) :
  is_safetensors file = false ->
  fs file = Some (PickleFile (PyDict items)) ->
  dict_get "string_to_param" items = Some (PyDict ((k, PyTensor t) :: rest)) ->
  t_shape t = [K; D] ->
  load_weights fs file = Ok t.
Proof.
  intros Hext Hfile Hnested Hshape.
  rewrite (load_weights_pickle_table _ _ _ _ Hext Hfile (table_nested _ _ Hnested)).
  cbn. unfold rank. now rewrite Hshape.
Qed.

Lemma load_weights_legacy_witness :
  load_weights fs_legacy "emb.pt" = Ok sample_emb.
Proof.
  apply (load_weights_legacy fs_legacy "emb.pt"
           [("string_to_token", PyDict [("*", PyOther "265")]);
            ("string_to_param", PyDict [("*", PyTensor sample_emb)]);
            ("name", PyOther "concept")]
           [] "*" sample_emb 2 3); reflexivity.
Defined.

(** C9: a file that stores a rank-1 tensor of length [D] loads to the
    rank-2 tensor of shape [[1; D]] with the same elements. *)
Theorem load_weights_rank1 (fs : filesystem) (file : string) (c : file_content)
        (t : tensor) (D : nat) :
  D >= 1 ->
  fs file = Some c ->
  stores_tensor file c t ->
  t_shape t = [D] ->
  exists emb,
    load_weights fs file = Ok emb /\
    t_shape emb = [1; D] /\ rank emb = 2 /\
    t_data emb = t_data t /\ t_dtype emb = t_dtype t.
Proof.
  intros _ Hfile Hst Hshape.
  rewrite (load_weights_stored _ _ _ _ Hfile Hst).
  unfold rank. rewrite Hshape. cbn.
  exists (unsqueeze0 t). unfold unsqueeze0. cbn. rewrite Hshape. repeat split.
Qed.

Lemma load_weights_rank1_witness :
  exists emb,
    load_weights fs_rank1 "emb.safetensors" = Ok emb /\
    t_shape emb = [1; 3] /\ rank emb = 2 /\
    t_data emb = t_data sample_vec /\ t_dtype emb = t_dtype sample_vec.
Proof.
  apply (load_weights_rank1 fs_rank1 "emb.safetensors"
           (SafetensorsArchive [("emb_params", sample_vec)]) sample_vec 3).
  - lia.
  - reflexivity.
  - apply stores_archive. reflexivity.
  - reflexivity.
Defined.

(** C10 as stated fails: the payload of this file is a mapping whose first
    value is the tensor [sample_emb], yet [load_weights] returns the tensor
    nested under [string_to_param]. *)
Lemma load_weights_first_value_counterexample :
  fs_two_entries "emb.pt" =
    Some (PickleFile (PyDict [("emb_params", PyTensor sample_emb);
                              ("string_to_param", PyDict [("*", PyTensor sample_emb')])])) /\
  load_weights fs_two_entries "emb.pt" = Ok sample_emb' /\
  load_weights fs_two_entries "emb.pt" <> Ok sample_emb.
Proof.
  split; [reflexivity|]. split; [reflexivity|]. discriminate.
Qed.

(** C10, amended: the only key [load_weights] looks for is
    [string_to_param], and only in pickled files. A safetensors archive,
    and a pickled mapping without that key, load to their first value when
    it is a tensor (promoted to rank 2 when it has rank 1), whatever the
    name [k] it is stored under. *)
Theorem load_weights_any_key (fs : filesystem) (file : string) (k : string) (t : tensor) :
  (is_safetensors file = true /\
   exists rest, fs file = Some (SafetensorsArchive ((k, t) :: rest))) \/
  (is_safetensors file = false /\
   exists rest,
     fs file = Some (PickleFile (PyDict ((k, PyTensor t) :: rest))) /\
     dict_get "string_to_param" ((k, PyTensor t) :: rest) = None) ->
  load_weights fs file = Ok (if rank t =? 1 then unsqueeze0 t else t).
Proof.
  intros [[Hext [rest Hfile]] | [Hext [rest [Hfile Hkey]]]].
  - now apply load_weights_archive with (k := k) (rest := rest).
  - now rewrite (load_weights_pickle_table _ _ _ _ Hext Hfile (table_direct _ Hkey)).
Qed.

Lemma load_weights_any_key_witness :
  load_weights fs_other_key "emb.pt" = Ok sample_emb.
Proof.
  apply (load_weights_any_key fs_other_key "emb.pt" "clip_l" sample_emb).
  right. split; [reflexivity|]. exists []. split; reflexivity.
Defined.

(* ===================================================================== *)
(** ** Token registrar: proofs *)
(* ===================================================================== *)

Lemma append_inj_r (p a b : string) :
  String.append p a = String.append p b -> a = b.
Proof.
  induction p as [|c p IH]; cbn; intros H; [exact H|].
  injection H as H. now apply IH.
Qed.

Lemma append_empty_r (p : string) : String.append p "" = p.
Proof. induction p as [|c p IH]; cbn; [reflexivity | now rewrite IH]. Qed.

Lemma str_of_nat_inj (a b : nat) : str_of_nat a = str_of_nat b -> a = b.
Proof.
  unfold str_of_nat. intros H.
  assert (Hu : Some (Nat.to_uint a) = Some (Nat.to_uint b)).
  { rewrite <- (NilEmpty.usu (Nat.to_uint a)), <- (NilEmpty.usu (Nat.to_uint b)).
    now rewrite H. }
  injection Hu as Hu.
  rewrite <- (Unsigned.of_to a), <- (Unsigned.of_to b). now rewrite Hu.
Qed.

Lemma str_of_nat_nonempty (n : nat) : n <> 0 -> str_of_nat n <> "".
Proof.
  intros Hn H. apply Hn.
  assert (Hu : Some (Nat.to_uint n) = Some Decimal.Nil).
  { rewrite <- (NilEmpty.usu (Nat.to_uint n)). unfold str_of_nat in H. now rewrite H. }
  injection Hu as Hu.
  rewrite <- (Unsigned.of_to n), Hu. reflexivity.
Qed.

Lemma token_strings_length (p : string) (K : nat) :
  K >= 1 -> length (token_strings p K) = K.
Proof.
  intros HK. unfold token_strings. cbn. rewrite length_map, length_seq. lia.
Qed.

Lemma token_strings_NoDup (p : string) (K : nat) : NoDup (token_strings p K).
Proof.
  unfold token_strings. cbn. constructor.
  - intros Hin. apply in_map_iff in Hin. destruct Hin as [i [Hi _]].
    rewrite <- (append_empty_r p) in Hi at 2.
    apply append_inj_r in Hi. apply (str_of_nat_nonempty (i + 1)); [lia | exact Hi].
  - generalize (seq 0 (K - 1)) (seq_NoDup (K - 1) 0).
    induction l as [|i l IH]; intros Hnd; cbn; constructor.
    + intros Hin. apply in_map_iff in Hin. destruct Hin as [j [Hj Hjl]].
      apply append_inj_r, str_of_nat_inj in Hj.
      assert (j = i) by lia. subst j. now inversion Hnd.
    + apply IH. now inversion Hnd.
Qed.

Lemma mem_string_In (s : string) (l : list string) :
  mem_string s l = true <-> In s l.
Proof.
  induction l as [|x l IH]; cbn; [intuition discriminate|].
  rewrite orb_true_iff, IH, String.eqb_eq. tauto.
Qed.

Lemma mem_string_not_In (s : string) (l : list string) :
  mem_string s l = false <-> ~ In s l.
Proof.
  rewrite <- mem_string_In. destruct (mem_string s l); intuition congruence.
Qed.

(** The strings of a duplicate-free request that [add_tokens] queues are
    those absent from the vocabulary, in request order. *)
Lemma tokens_to_add_filter (v : list string) (new_tokens queued : list string) :
  NoDup new_tokens ->
  (forall s, In s new_tokens -> ~ In s queued) ->
  tokens_to_add v new_tokens queued =
  queued ++ filter (fun s => negb (mem_string s v)) new_tokens.
Proof.
  revert queued. induction new_tokens as [|t rest IH]; intros queued Hnd Hq; cbn.
  - now rewrite app_nil_r.
  - inversion Hnd as [|t' rest' Ht Hrest]; subst.
    assert (Hrest_q : forall s, In s rest -> ~ In s queued)
      by (intros s Hs; apply Hq; now right).
    destruct (mem_string t v) eqn:Hv; cbn.
    + now apply IH.
    + assert (Htq : mem_string t queued = false)
        by (apply mem_string_not_In, Hq; now left).
      rewrite Htq. rewrite IH; [now rewrite <- app_assoc | exact Hrest |].
      intros s Hs Hin. apply in_app_or in Hin. destruct Hin as [Hin | [Heq | []]].
      * now apply (Hrest_q s).
      * subst s. contradiction.
Qed.

Lemma filter_absent_all (v l : list string) :
  (forall s, In s l -> ~ In s v) ->
  filter (fun s => negb (mem_string s v)) l = l.
Proof.
  induction l as [|x l IH]; intros H; cbn; [reflexivity|].
  assert (Hx : mem_string x v = false) by (apply mem_string_not_In, H; now left).
  rewrite Hx. cbn. f_equal. apply IH. intros s Hs. apply H. now right.
Qed.

Lemma filter_absent_shorter (v l : list string) (s : string) :
  In s l -> In s v ->
  length (filter (fun s => negb (mem_string s v)) l) < length l.
Proof.
  induction l as [|x l IH]; intros Hl Hv; [destruct Hl|].
  cbn. destruct Hl as [Heq | Hl].
  - subst x. assert (Hm : mem_string s v = true) by now apply mem_string_In.
    rewrite Hm. cbn. pose proof (filter_length_le (fun s => negb (mem_string s v)) l). lia.
  - specialize (IH Hl Hv). destruct (negb (mem_string x v)); cbn; lia.
Qed.

Lemma index_of_app_absent (s : string) (v l : list string) :
  ~ In s v ->
  index_of s (v ++ l) =
  match index_of s l with Some i => Some (length v + i) | None => None end.
Proof.
  induction v as [|x v IH]; intros Hs; cbn.
  - now destruct (index_of s l).
  - assert (Hx : String.eqb x s = false).
    { apply String.eqb_neq. intros ->. apply Hs. now left. }
    rewrite Hx, IH by (intros Hin; apply Hs; now right).
    now destruct (index_of s l).
Qed.

(** Ids of freshly appended, pairwise distinct tokens. *)
Lemma convert_appended_ids (u : nat) (added v : list string) :
  NoDup added ->
  (forall s, In s added -> ~ In s v) ->
  convert_tokens_to_ids (mkTokenizer (v ++ added) u) added =
  seq (length v) (length added).
Proof.
  revert v. induction added as [|a added IH]; intros v Hnd Hv; [reflexivity|].
  inversion Hnd as [|a' added' Ha Hadded]; subst.
  cbn [convert_tokens_to_ids map length seq]. f_equal.
  - unfold convert_token_to_id. cbn [vocab].
    rewrite index_of_app_absent by (apply Hv; now left).
    cbn. rewrite String.eqb_refl. lia.
  - specialize (IH (v ++ [a]) Hadded).
    rewrite <- app_assoc, length_app in IH. cbn in IH.
    replace (length v + 1) with (S (length v)) in IH by lia.
    apply IH. intros s Hs Hin. apply in_app_or in Hin.
    destruct Hin as [Hin | [Heq | []]].
    + apply (Hv s); [now right | exact Hin].
    + subst s. contradiction.
Qed.

Lemma min_list_seq (x a n : nat) : x <= a -> min_list x (seq a n) = x.
Proof.
  unfold min_list. revert x a. induction n as [|n IH]; intros x a Hx; cbn; [reflexivity|].
  rewrite Nat.min_l by exact Hx. apply IH. lia.
Qed.

Lemma last_seq (a n d : nat) : n >= 1 -> last (seq a n) d = a + n - 1.
Proof.
  intros Hn. destruct n as [|n]; [lia|].
  rewrite seq_S, last_last. lia.
Qed.

Section RegistrarFacts.

Variable fresh_row : nat -> row.

Lemma resize_token_embeddings_length (n : nat) (emb : matrix) :
  length (resize_token_embeddings fresh_row n emb) = n.
Proof.
  unfold resize_token_embeddings.
  rewrite length_app, length_firstn, length_map, length_seq. lia.
Qed.

(** C3: when none of the [K >= 1] generated strings is in the vocabulary
    of size [V], registration succeeds, the new ids are [V, V+1, ...,
    V+K-1] in this order, the vocabulary has [V+K] entries and the resized
    embedding table has [V+K] rows. *)
Theorem register_tokens_fresh (tk : tokenizer) (emb : matrix)
        (token_string : string) (K : nat) :
  K >= 1 ->
  (forall s, In s (token_strings token_string K) -> ~ In s (vocab tk)) ->
  exists tk' emb',
    register_tokens fresh_row tk emb token_string K
    = (tk', Ok (seq (tokenizer_len tk) K, emb')) /\
    vocab tk' = vocab tk ++ token_strings token_string K /\
    tokenizer_len tk' = tokenizer_len tk + K /\
    length emb' = tokenizer_len tk + K.
Proof.
  intros HK Hfresh.
  pose proof (token_strings_NoDup token_string K) as Hnd.
  pose proof (token_strings_length token_string K HK) as Hlen.
  unfold register_tokens, add_tokens.
  rewrite tokens_to_add_filter by (exact Hnd || intros s _ []).
  rewrite filter_absent_all by exact Hfresh. cbn [app].
  rewrite Hlen, Nat.eqb_refl. cbn [negb].
  rewrite convert_appended_ids by assumption. rewrite Hlen.
  unfold tokenizer_len. cbn [vocab]. rewrite length_app, Hlen.
  destruct K as [|K']; [lia|]. cbn [seq].
  change (length (vocab tk) :: seq (S (length (vocab tk))) K')
    with (seq (length (vocab tk)) (S K')).
  rewrite min_list_seq by lia. rewrite last_seq by lia.
  rewrite length_seq, Nat.eqb_refl.
  replace (Z.of_nat (length (vocab tk) + S K' - 1) =?
           Z.of_nat (length (vocab tk)) + Z.of_nat (S K') - 1)%Z
    with true by (symmetry; apply Z.eqb_eq; lia).
  replace (Z.of_nat (length (vocab tk) + S K') - 1 =?
           Z.of_nat (length (vocab tk) + S K' - 1))%Z
    with true by (symmetry; apply Z.eqb_eq; lia).
  cbn [andb negb].
  eexists. eexists. split; [reflexivity|].
  split; [reflexivity|]. split.
  - cbn [vocab]. now rewrite length_app, Hlen.
  - apply resize_token_embeddings_length.
Qed.

(** C4, amended: when one of the [K >= 1] generated strings is already in
    the vocabulary, registration fails on the first assertion and the
    embedding table is left alone; by then [add_tokens] has appended the
    generated strings that were absent, so the vocabulary has grown by
    their number (fewer than [K]) and has its old size only when all [K]
    strings were present. *)
Theorem register_tokens_conflict (tk : tokenizer) (emb : matrix)
        (token_string : string) (K : nat) :
  K >= 1 ->
  (exists s, In s (token_strings token_string K) /\ In s (vocab tk)) ->
  exists tk',
    register_tokens fresh_row tk emb token_string K
    = (tk', Err (AssertionError (conflict_msg token_string))) /\
    vocab tk' = vocab tk ++ absent_strings tk (token_strings token_string K) /\
    tokenizer_len tk' =
      tokenizer_len tk + length (absent_strings tk (token_strings token_string K)) /\
    length (absent_strings tk (token_strings token_string K)) < K /\
    (tokenizer_len tk' = tokenizer_len tk <->
     forall s, In s (token_strings token_string K) -> In s (vocab tk)).
Proof.
  intros HK [s [Hs Hv]].
  pose proof (token_strings_NoDup token_string K) as Hnd.
  pose proof (token_strings_length token_string K HK) as Hlen.
  pose proof (filter_absent_shorter _ _ _ Hs Hv) as Hshort.
  unfold register_tokens, add_tokens.
  rewrite tokens_to_add_filter by (exact Hnd || intros s' _ []).
  cbn [app]. fold (absent_strings tk (token_strings token_string K)) in *.
  rewrite Hlen in Hshort.
  replace (length (absent_strings tk (token_strings token_string K)) =? K)
    with false by (symmetry; apply Nat.eqb_neq; lia).
  cbn [negb]. eexists. split; [reflexivity|].
  split; [reflexivity|]. unfold tokenizer_len. cbn [vocab]. rewrite length_app.
  split; [reflexivity|]. split; [exact Hshort|].
  split.
  - intros Hsame s' Hs'.
    assert (Hnil : absent_strings tk (token_strings token_string K) = [])
      by (apply length_zero_iff_nil; lia).
    destruct (mem_string s' (vocab tk)) eqn:Hm; [now apply mem_string_In|].
    assert (Hin : In s' (absent_strings tk (token_strings token_string K))).
    { unfold absent_strings. apply filter_In. split; [exact Hs'|]. now rewrite Hm. }
    rewrite Hnil in Hin. destruct Hin.
  - intros Hall.
    assert (Hnil : absent_strings tk (token_strings token_string K) = []).
    { destruct (absent_strings tk (token_strings token_string K)) as [|x l] eqn:Hab;
        [reflexivity|].
      assert (Hin : In x (absent_strings tk (token_strings token_string K)))
        by (rewrite Hab; now left).
      unfold absent_strings in Hin. apply filter_In in Hin. destruct Hin as [Hx Hneg].
      apply Hall, mem_string_In in Hx. rewrite Hx in Hneg. discriminate. }
    rewrite Hnil. cbn. lia.
Qed.

End RegistrarFacts.

Lemma register_tokens_fresh_witness :
  exists tk' emb',
    register_tokens sample_fresh_row sample_tokenizer sample_table "sks" 3
    = (tk', Ok (seq (tokenizer_len sample_tokenizer) 3, emb')) /\
    vocab tk' = vocab sample_tokenizer ++ token_strings "sks" 3 /\
    tokenizer_len tk' = tokenizer_len sample_tokenizer + 3 /\
    length emb' = tokenizer_len sample_tokenizer + 3.
Proof.
  apply (register_tokens_fresh sample_fresh_row sample_tokenizer sample_table "sks" 3).
  - lia.
  - intros s Hs Hv. cbn in Hs, Hv.
    destruct Hs as [<- | [<- | [<- | []]]];
      repeat (destruct Hv as [Hv | Hv]; [discriminate Hv|]); exact Hv.
Defined.

(** C4 as stated fails: ["cat"] is in the vocabulary, registration of the
    two strings ["cat"; "cat1"] fails with the conflict error, and the
    vocabulary has grown from three to four entries. *)
Lemma register_tokens_conflict_counterexample :
  In "cat" (token_strings "cat" 2) /\
  In "cat" (vocab sample_tokenizer) /\
  snd (register_tokens sample_fresh_row sample_tokenizer sample_table "cat" 2)
  = Err (AssertionError (conflict_msg "cat")) /\
  tokenizer_len sample_tokenizer = 3 /\
  tokenizer_len (fst (register_tokens sample_fresh_row sample_tokenizer sample_table "cat" 2)) = 4.
Proof.
  split; [now left|]. split; [cbn; tauto|]. repeat split.
Qed.

Lemma register_tokens_conflict_witness :
  exists tk',
    register_tokens sample_fresh_row sample_tokenizer sample_table "cat" 2
    = (tk', Err (AssertionError (conflict_msg "cat"))) /\
    vocab tk' = vocab sample_tokenizer ++ absent_strings sample_tokenizer (token_strings "cat" 2) /\
    tokenizer_len tk' =
      tokenizer_len sample_tokenizer
      + length (absent_strings sample_tokenizer (token_strings "cat" 2)) /\
    length (absent_strings sample_tokenizer (token_strings "cat" 2)) < 2 /\
    (tokenizer_len tk' = tokenizer_len sample_tokenizer <->
     forall s, In s (token_strings "cat" 2) -> In s (vocab sample_tokenizer)).
Proof.
  apply (register_tokens_conflict sample_fresh_row sample_tokenizer sample_table "cat" 2).
  - lia.
  - exists "cat". split; [now left | cbn; tauto].
Defined.

(* ===================================================================== *)
(** ** Initialisation of the new rows: proofs *)
(* ===================================================================== *)

Lemma set_row_spec (m : matrix) (i : nat) (r : row) :
  i < length m ->
  exists m',
    set_row m i r = Some m' /\
    length m' = length m /\
    nth_error m' i = Some r /\
    (forall j, j <> i -> nth_error m' j = nth_error m j).
Proof.
  revert i. induction m as [|x m IH]; intros i Hi; cbn in Hi; [lia|].
  destruct i as [|i]; cbn.
  - exists (r :: m). repeat split. intros j Hj. destruct j; [lia | reflexivity].
  - destruct (IH i) as [m' [Hset [Hlen [Hi' Hother]]]]; [lia|].
    rewrite Hset. exists (x :: m'). cbn. repeat split; [now rewrite Hlen | exact Hi' |].
    intros j Hj. destruct j; [reflexivity|]. cbn. apply Hother. lia.
Qed.

(** The loop over the new ids [a, a+1, ..., a+n-1], entered with enumeration
    index [i], when every initializer id lies below [a]. *)
Lemma init_rows_seq (init_token_ids : list nat) (n : nat) :
  forall (a i : nat) (emb : matrix),
    length init_token_ids >= 1 ->
    Forall (fun id => id < a) init_token_ids ->
    a + n <= length emb ->
    exists emb',
      init_rows emb init_token_ids i (seq a n) = Ok emb' /\
      length emb' = length emb /\
      (forall j, j < a \/ a + n <= j -> nth_error emb' j = nth_error emb j) /\
      (forall k, k < n ->
                 nth_error emb' (a + k) =
                 nth_error emb (nth ((i + k) mod length init_token_ids) init_token_ids 0)).
Proof.
  induction n as [|n IH]; intros a i emb HM Hinit Hlen.
  - exists emb. cbn. repeat split. intros k Hk. lia.
  - cbn [seq init_rows].
    replace (length init_token_ids =? 0) with false
      by (symmetry; apply Nat.eqb_neq; lia).
    assert (Hmod : i mod length init_token_ids < length init_token_ids)
      by (apply Nat.mod_upper_bound; lia).
    destruct (nth_error init_token_ids (i mod length init_token_ids)) as [init_id|] eqn:Hsrc;
      [|apply nth_error_None in Hsrc; lia].
    assert (Hid : init_id < a).
    { rewrite Forall_forall in Hinit. apply Hinit. eapply nth_error_In, Hsrc. }
    destruct (nth_error emb init_id) as [r|] eqn:Hrow;
      [|apply nth_error_None in Hrow; lia].
    destruct (set_row_spec emb a r) as [emb1 [Hset [Hlen1 [Ha Hother]]]]; [lia|].
    rewrite Hset.
    destruct (IH (S a) (S i) emb1 HM) as [emb' [Hrun [Hlen' [Hout Hnew]]]].
    + eapply Forall_impl; [|exact Hinit]. cbn. intros; lia.
    + lia.
    + exists emb'. split; [exact Hrun|]. split; [lia|]. split.
      * intros j Hj. rewrite Hout by lia. apply Hother. lia.
      * intros k Hk. destruct k as [|k].
        -- rewrite Nat.add_0_r, Hout by lia. rewrite Ha, Nat.add_0_r.
           rewrite (nth_error_nth _ _ 0 Hsrc). now rewrite Hrow.
        -- replace (a + S k) with (S a + k) by lia. rewrite Hnew by lia.
           replace (S i + k) with (i + S k) by lia.
           apply Hother.
           assert (Hb : (i + S k) mod length init_token_ids < length init_token_ids)
             by (apply Nat.mod_upper_bound; lia).
           rewrite Forall_forall in Hinit.
           specialize (Hinit _ (nth_In init_token_ids 0 Hb)). cbn in Hinit. lia.
Qed.

(** C5: with an initializer word encoded to [M >= 1] ids of the base
    vocabulary (ids below [V]), the loop succeeds and leaves, for every
    [i < K], the row of the new token id [token_ids[i] = V + i] equal to the
    row of the initializer id [init_token_ids[i mod M]]. *)
Theorem init_embeddings_cyclic (emb : matrix) (init_token_ids : list nat)
        (V K M : nat) :
  M >= 1 ->
  length init_token_ids = M ->
  Forall (fun id => id < V) init_token_ids ->
  length emb = V + K ->
  exists emb',
    init_embeddings emb (Some init_token_ids) (seq V K) = Ok emb' /\
    forall i, i < K ->
      exists r,
        nth_error emb' (nth i (seq V K) 0) = Some r /\
        nth_error emb' (nth (i mod M) init_token_ids 0) = Some r /\
        nth_error emb (nth (i mod M) init_token_ids 0) = Some r.
Proof.
  intros HM HlenM Hinit Hlen. unfold init_embeddings.
  destruct (init_rows_seq init_token_ids K V 0 emb) as [emb' [Hrun [Hlen' [Hout Hnew]]]];
    [lia | exact Hinit | lia |].
  exists emb'. split; [exact Hrun|]. intros i Hi.
  rewrite seq_nth by exact Hi. rewrite HlenM in Hnew.
  assert (Hb : i mod M < length init_token_ids)
    by (rewrite HlenM; apply Nat.mod_upper_bound; lia).
  rewrite Forall_forall in Hinit.
  pose proof (Hinit _ (nth_In init_token_ids 0 Hb)) as Hid. cbn in Hid.
  destruct (nth_error emb (nth (i mod M) init_token_ids 0)) as [r|] eqn:Hrow;
    [|apply nth_error_None in Hrow; lia].
  exists r. rewrite Hnew by exact Hi. cbn [Nat.add]. rewrite Hrow.
  split; [reflexivity|]. split; [|reflexivity].
  rewrite Hout by lia. exact Hrow.
Qed.

Lemma init_embeddings_cyclic_witness :
  exists emb',
    init_embeddings sample_resized (Some [2; 1]) (seq 3 3) = Ok emb' /\
    forall i, i < 3 ->
      exists r,
        nth_error emb' (nth i (seq 3 3) 0) = Some r /\
        nth_error emb' (nth (i mod 2) [2; 1] 0) = Some r /\
        nth_error sample_resized (nth (i mod 2) [2; 1] 0) = Some r.
Proof.
  apply (init_embeddings_cyclic sample_resized [2; 1] 3 3 2).
  - lia.
  - reflexivity.
  - repeat constructor.
  - reflexivity.
Defined.

(* ===================================================================== *)
(** ** Training loop: proofs *)
(* ===================================================================== *)

Lemma arange_lt_length (n b : nat) : length (arange_lt n b) = n.
Proof. unfold arange_lt. now rewrite length_map, length_seq. Qed.

Lemma arange_lt_nth (n b r : nat) :
  r < n -> nth_error (arange_lt n b) r = Some (r <? b).
Proof.
  intros Hr. unfold arange_lt.
  rewrite nth_error_map, nth_error_seq.
  replace (r <? n) with true by (symmetry; apply Nat.ltb_lt; exact Hr).
  reflexivity.
Qed.

Lemma select_rows_count (mask : list bool) :
  forall m, length mask = length m ->
            length (select_rows m mask) = count_true mask.
Proof.
  unfold count_true.
  induction mask as [|b mask IH]; intros [|r m] Hlen; cbn in *; try lia; try reflexivity.
  - destruct b; cbn; rewrite IH by lia; reflexivity.
Qed.

(** Masked write-back, row by row. *)
Lemma scatter_select_nth (mask : list bool) :
  forall (live orig : matrix),
    length mask = length live ->
    length mask = length orig ->
    length (scatter_rows live mask (select_rows orig mask)) = length live /\
    forall r,
      nth_error (scatter_rows live mask (select_rows orig mask)) r =
      match nth_error mask r with
      | Some true => nth_error orig r
      | _ => nth_error live r
      end.
Proof.
  induction mask as [|b mask IH]; intros [|l live] [|o orig] Hl Ho; cbn in Hl, Ho; try lia.
  - split; [reflexivity|]. intros r. now destruct r.
  - destruct (IH live orig) as [Hlen Hnth]; [lia | lia |].
    destruct b; cbn.
    + split; [now rewrite Hlen|]. intros [|r]; cbn; [reflexivity | apply Hnth].
    + split; [now rewrite Hlen|]. intros [|r]; cbn; [reflexivity | apply Hnth].
Qed.

Lemma mapi_from_length {A B : Type} (f : nat -> A -> B) (l : list A) :
  forall i, length (mapi_from f i l) = length l.
Proof. induction l as [|x l IH]; intros i; cbn; [reflexivity | now rewrite IH]. Qed.

Lemma div_succ (k g : nat) :
  g >= 1 ->
  S k / g = k / g + (if S k mod g =? 0 then 1 else 0).
Proof.
  intros Hg.
  pose proof (Nat.div_mod_eq k g) as Hk.
  pose proof (Nat.mod_upper_bound k g ltac:(lia)) as Hr.
  destruct (Nat.eq_dec (S (k mod g)) g) as [Heq | Hne].
  - assert (Hd : S k / g = k / g + 1).
    { symmetry. apply (Nat.div_unique (S k) g (k / g + 1) 0); lia. }
    assert (Hm : S k mod g = 0).
    { symmetry. apply (Nat.mod_unique (S k) g (k / g + 1) 0); lia. }
    rewrite Hd, Hm. reflexivity.
  - assert (Hd : S k / g = k / g).
    { symmetry. apply (Nat.div_unique (S k) g (k / g) (S (k mod g))); lia. }
    assert (Hm : S k mod g = S (k mod g)).
    { symmetry. apply (Nat.mod_unique (S k) g (k / g) (S (k mod g))); lia. }
    rewrite Hd, Hm. cbn. lia.
Qed.

Lemma count_multiples (g k : nat) :
  g >= 1 ->
  length (filter (fun i => (i + 1) mod g =? 0) (seq 0 k)) = k / g.
Proof.
  intros Hg. induction k as [|k IH].
  - cbn. symmetry. apply Nat.div_small. lia.
  - rewrite seq_S, filter_app, length_app, IH. cbn [Nat.add filter].
    rewrite (div_succ k g Hg). replace (k + 1) with (S k) by lia.
    destruct (S k mod g =? 0); reflexivity.
Qed.

(** The accelerator synchronises gradients [ceil(L / g)] times per epoch,
    the number the script computes as [num_update_steps_per_epoch]. *)
Lemma accumulate_sync_count (g L epoch : nat) :
  g >= 1 -> L >= 1 ->
  sync_count (accumulate_sync g L) epoch (seq 0 L) = (L + g - 1) / g.
Proof.
  intros Hg HL. unfold sync_count.
  destruct L as [|L]; [lia|].
  rewrite seq_S, filter_app, length_app. cbn [Nat.add filter].
  assert (Hlast : accumulate_sync g (S L) epoch L = true).
  { unfold accumulate_sync. replace (L + 1 =? S L) with true
      by (symmetry; apply Nat.eqb_eq; lia). apply orb_true_r. }
  rewrite Hlast. cbn [length].
  rewrite (filter_ext_in (accumulate_sync g (S L) epoch)
                         (fun i => (i + 1) mod g =? 0)).
  - rewrite count_multiples by exact Hg.
    replace (S (L + g) - 1) with (L + 1 * g) by lia.
    rewrite Nat.div_add by lia. reflexivity.
  - intros i Hi. apply in_seq in Hi. unfold accumulate_sync.
    replace (i + 1 =? S L) with false by (symmetry; apply Nat.eqb_neq; lia).
    apply orb_false_r.
Qed.

Lemma ceil_div_bounds (a b : nat) :
  b >= 1 -> a >= 1 ->
  (a + b - 1) / b >= 1 /\
  ((a + b - 1) / b - 1) * b < a /\
  a <= (a + b - 1) / b * b.
Proof.
  intros Hb Ha.
  pose proof (Nat.div_mod_eq (a + b - 1) b) as Hd.
  pose proof (Nat.mod_upper_bound (a + b - 1) b ltac:(lia)) as Hr.
  assert (Hq : (a + b - 1) / b >= 1).
  { destruct ((a + b - 1) / b) eqn:Hz; [|lia]. rewrite Nat.mul_0_r in Hd. lia. }
  split; [exact Hq|]. nia.
Qed.

Section TrainingFacts.

Variable update : nat -> nat -> matrix -> nat -> row -> row.
Variable sync_gradients : nat -> nat -> bool.

Lemma optimizer_step_length (epoch step : nat) (w : matrix) :
  length (optimizer_step update sync_gradients epoch step w) = length w.
Proof.
  unfold optimizer_step. destruct (sync_gradients epoch step); [|reflexivity].
  apply mapi_from_length.
Qed.

(** The write-back after the optimizer step: rows below [base] come from
    the snapshot, the others are left as the optimizer made them. *)
Lemma restore_frozen_rows (n base : nat) (w orig : matrix) :
  length w = n -> length orig = n ->
  exists w',
    restore_frozen w orig (arange_lt n base) = Ok w' /\
    length w' = n /\
    forall r, nth_error w' r =
              if r <? base then nth_error orig r else nth_error w r.
Proof.
  intros Hw Ho. unfold restore_frozen, masked_select, masked_assign.
  rewrite arange_lt_length, Ho, Nat.eqb_refl. cbn [bind].
  rewrite Hw, Nat.eqb_refl.
  rewrite select_rows_count by (rewrite arange_lt_length; lia).
  rewrite Nat.eqb_refl.
  destruct (scatter_select_nth (arange_lt n base) w orig) as [Hlen Hnth];
    try (rewrite arange_lt_length; lia).
  eexists. split; [reflexivity|]. split; [lia|].
  intros r. rewrite Hnth.
  destruct (Nat.lt_ge_cases r n) as [Hr | Hr].
  - rewrite arange_lt_nth by exact Hr. now destruct (r <? base).
  - assert (Hnone : nth_error (arange_lt n base) r = None)
      by (apply nth_error_None; rewrite arange_lt_length; lia).
    rewrite Hnone.
    assert (Hw' : nth_error w r = None) by (apply nth_error_None; lia).
    assert (Ho' : nth_error orig r = None) by (apply nth_error_None; lia).
    rewrite Hw', Ho'. now destruct (r <? base).
Qed.

(** One batch iteration on a table of the right height. *)
Lemma train_batch_step (n base K : nat) (orig : matrix)
      (epoch step : nat) (st : train_state) :
  n = base + K ->
  length orig = n -> length (weight st) = n ->
  exists w',
    train_batch update sync_gradients orig (arange_lt n base) epoch step st
    = Ok (mkState w'
                  (if sync_gradients epoch step
                   then global_step st + 1 else global_step st)
                  (if sync_gradients epoch step
                   then optimizer_updates st + 1 else optimizer_updates st)
                  ((if sync_gradients epoch step
                    then global_step st + 1 else global_step st, w')
                     :: history st)) /\
    length w' = n /\
    rows_kept base K orig w'.
Proof.
  intros Hn Ho Hw. unfold train_batch.
  destruct (restore_frozen_rows n base
              (optimizer_step update sync_gradients epoch step (weight st)) orig)
    as [w' [Hres [Hlen Hnth]]];
    [now rewrite optimizer_step_length | exact Ho |].
  rewrite Hres. cbn [bind]. exists w'. split; [reflexivity|].
  split; [exact Hlen|]. split; [lia|].
  intros r [Hr | Hr]; rewrite Hnth.
  - now replace (r <? base) with true by (symmetry; apply Nat.ltb_lt; exact Hr).
  - replace (r <? base) with false by (symmetry; apply Nat.ltb_ge; lia).
    transitivity (@None row); [|symmetry]; apply nth_error_None;
      [rewrite optimizer_step_length|]; lia.
Qed.

Lemma batch_loop_kept (n base K : nat) (orig : matrix) (max_train_steps epoch : nat)
      (steps : list nat) :
  n = base + K -> length orig = n ->
  forall st,
    all_kept n base K orig st ->
    exists st',
      batch_loop update sync_gradients orig (arange_lt n base)
                 max_train_steps epoch steps st = Ok st' /\
      all_kept n base K orig st'.
Proof.
  intros Hn Ho. induction steps as [|step rest IH]; intros st Hst.
  - exists st. now split.
  - destruct Hst as [Hw [Hkept Hhist]].
    destruct (train_batch_step n base K orig epoch step st Hn Ho Hw)
      as [w' [Hrun [Hlen Hk']]].
    cbn [batch_loop]. rewrite Hrun. cbn [bind].
    match goal with
    | |- context [Ok ?s] =>
        assert (Hs : all_kept n base K orig s)
          by (split; [exact Hlen | split; [exact Hk' | now constructor]])
    end.
    destruct (max_train_steps <=? _).
    + eexists. split; [reflexivity | exact Hs].
    + apply IH. exact Hs.
Qed.

Lemma epoch_loop_kept (n base K : nat) (orig : matrix) (max_train_steps L : nat)
      (epochs : list nat) :
  n = base + K -> length orig = n ->
  forall st,
    all_kept n base K orig st ->
    exists st',
      epoch_loop update sync_gradients orig (arange_lt n base)
                 max_train_steps L epochs st = Ok st' /\
      all_kept n base K orig st'.
Proof.
  intros Hn Ho. induction epochs as [|epoch rest IH]; intros st Hst.
  - exists st. now split.
  - destruct (batch_loop_kept n base K orig max_train_steps epoch (seq 0 L) Hn Ho st Hst)
      as [st1 [Hrun Hst1]].
    cbn [epoch_loop]. rewrite Hrun. cbn [bind]. now apply IH.
Qed.

(** C1: the training loop runs to its end, and at the end of every batch
    iteration (hence after every optimizer step) and at the end of
    training, every row [r < base_id] of the live table equals row [r] of
    the snapshot taken before the loop, which is the table training
    started from; no row outside the block of the [K] new ids differs
    from that table. *)
Theorem frozen_rows_restored (base_id K : nat) (emb : matrix)
        (num_batches gradient_accumulation_steps max_train_steps : nat) :
  K >= 1 ->
  length emb = base_id + K ->
  num_batches >= 1 ->
  gradient_accumulation_steps >= 1 ->
  exists st,
    train_loop update sync_gradients (base_id + K) (seq base_id K) emb
               num_batches gradient_accumulation_steps max_train_steps = Ok st /\
    (forall r, r < base_id -> nth_error (weight st) r = nth_error emb r) /\
    rows_kept base_id K emb (weight st) /\
    (forall gs w, In (gs, w) (history st) ->
                  (forall r, r < base_id -> nth_error w r = nth_error emb r) /\
                  rows_kept base_id K emb w).
Proof.
  intros HK Hlen HL Hg. unfold train_loop.
  destruct K as [|K']; [lia|]. cbn [seq].
  unfold ceil_div.
  replace (gradient_accumulation_steps =? 0) with false
    by (symmetry; apply Nat.eqb_neq; lia).
  cbn [bind].
  destruct (ceil_div_bounds num_batches gradient_accumulation_steps Hg HL) as [HU _].
  replace (_ / gradient_accumulation_steps =? 0) with false
    by (symmetry; apply Nat.eqb_neq; lia).
  cbn [bind].
  destruct (epoch_loop_kept (base_id + S K') base_id (S K') emb max_train_steps
              num_batches
              (seq 0 ((max_train_steps
                       + (num_batches + gradient_accumulation_steps - 1)
                         / gradient_accumulation_steps - 1)
                      / ((num_batches + gradient_accumulation_steps - 1)
                         / gradient_accumulation_steps)))
              eq_refl Hlen (mkState emb 0 0 []))
    as [st [Hrun [Hw [Hkept Hhist]]]].
  { split; [exact Hlen|]. split; [|constructor]. split; reflexivity. }
  exists st. split; [exact Hrun|]. split.
  - intros r Hr. apply Hkept. now left.
  - split; [exact Hkept|]. intros gs w Hin.
    rewrite Forall_forall in Hhist. specialize (Hhist _ Hin). cbn in Hhist.
    split; [|exact Hhist]. intros r Hr. apply Hhist. now left.
Qed.

(** The batch loop entered below the maximum: it counts the synchronised
    batches and stops on the one that reaches the maximum. *)
Lemma batch_loop_count (n base K : nat) (orig : matrix) (max_train_steps epoch : nat)
      (steps : list nat) :
  n = base + K -> length orig = n ->
  forall st,
    running n max_train_steps st ->
    exists st',
      batch_loop update sync_gradients orig (arange_lt n base)
                 max_train_steps epoch steps st = Ok st' /\
      if global_step st + sync_count sync_gradients epoch steps <? max_train_steps
      then running n max_train_steps st' /\
           global_step st' = global_step st + sync_count sync_gradients epoch steps
      else stopped max_train_steps st'.
Proof.
  intros Hn Ho. induction steps as [|step rest IH]; intros st Hst.
  - exists st. split; [reflexivity|]. unfold sync_count. cbn [filter length].
    rewrite Nat.add_0_r.
    pose proof Hst as [Hlt _].
    replace (global_step st <? max_train_steps) with true
      by (symmetry; apply Nat.ltb_lt; exact Hlt).
    cbv iota. split; [exact Hst | reflexivity].
  - destruct Hst as [Hlt [Hupd [Hhist Hw]]].
    destruct (train_batch_step n base K orig epoch step st Hn Ho Hw)
      as [w' [Hrun [Hlen _]]].
    cbn [batch_loop]. rewrite Hrun. cbn [bind global_step].
    unfold sync_count. cbn [filter].
    destruct (sync_gradients epoch step) eqn:Hsync; cbn [length].
    + destruct (max_train_steps <=? global_step st + 1) eqn:Hmax.
      * apply Nat.leb_le in Hmax. eexists. split; [reflexivity|].
        replace (global_step st + S _ <? max_train_steps) with false
          by (symmetry; apply Nat.ltb_ge; lia).
        unfold stopped. cbn. repeat split; try lia. exact Hhist.
      * apply Nat.leb_gt in Hmax.
        match goal with
        | |- context [batch_loop _ _ _ _ _ _ _ ?s] =>
            destruct (IH s) as [st' [Hrun' Hres]]
        end.
        { unfold running. cbn. repeat split; try lia.
          constructor; [cbn; lia | exact Hhist]. }
        exists st'. split; [exact Hrun'|].
        cbn [global_step] in Hres. fold (sync_count sync_gradients epoch rest).
        replace (global_step st + S (sync_count sync_gradients epoch rest))
          with (global_step st + 1 + sync_count sync_gradients epoch rest) by lia.
        exact Hres.
    + replace (max_train_steps <=? global_step st) with false
        by (symmetry; apply Nat.leb_gt; exact Hlt).
      match goal with
      | |- context [batch_loop _ _ _ _ _ _ _ ?s] =>
          destruct (IH s) as [st' [Hrun' Hres]]
      end.
      { unfold running. cbn. repeat split; try lia.
        constructor; [cbn; lia | exact Hhist]. }
      exists st'. split; [exact Hrun'|]. exact Hres.
Qed.

(** The epoch loop, when every epoch synchronises [U] times and the
    maximum cannot be reached before the last epoch. *)
Lemma epoch_loop_count (n base K : nat) (orig : matrix) (max_train_steps L U : nat)
      (epochs : list nat) :
  n = base + K -> length orig = n ->
  (forall epoch, sync_count sync_gradients epoch (seq 0 L) = U) ->
  forall st,
    running n max_train_steps st ->
    global_step st + (length epochs - 1) * U < max_train_steps ->
    exists st',
      epoch_loop update sync_gradients orig (arange_lt n base)
                 max_train_steps L epochs st = Ok st' /\
      if global_step st + length epochs * U <? max_train_steps
      then running n max_train_steps st' /\
           global_step st' = global_step st + length epochs * U
      else stopped max_train_steps st'.
Proof.
  intros Hn Ho HU. induction epochs as [|epoch rest IH]; intros st Hst Hbound.
  - exists st. split; [reflexivity|]. cbn [length Nat.mul]. rewrite Nat.add_0_r.
    pose proof Hst as [Hlt _].
    replace (global_step st <? max_train_steps) with true
      by (symmetry; apply Nat.ltb_lt; exact Hlt).
    cbv iota. now split.
  - destruct (batch_loop_count n base K orig max_train_steps epoch (seq 0 L) Hn Ho st Hst)
      as [st1 [Hrun Hres]].
    rewrite HU in Hres.
    cbn [epoch_loop]. rewrite Hrun. cbn [bind].
    destruct rest as [|epoch' rest'].
    + exists st1. split; [reflexivity|]. cbn [length].
      now replace (1 * U) with U by lia.
    + cbn [length] in Hbound, IH |- *.
      replace (global_step st + U <? max_train_steps) with true in Hres
        by (symmetry; apply Nat.ltb_lt; nia).
      destruct Hres as [Hst1 Hgs1].
      destruct (IH st1 Hst1) as [st' [Hrun' Hres']]; [nia|].
      exists st'. split; [exact Hrun'|].
      rewrite Hgs1 in Hres'.
      replace (global_step st + S (S (length rest')) * U)
        with (global_step st + U + S (length rest') * U) by lia.
      exact Hres'.
Qed.

End TrainingFacts.

(** C6: with the accelerator's accumulation schedule, the loop compares
    [global_step] with [max_train_steps] at the end of every batch iteration
    and stops at the first one that reaches it: training ends with exactly
    [max_train_steps] parameter updates, the last executed iteration is the
    one that reached the maximum, and every earlier iteration ended below
    it. With [max_train_steps = 3] and ten batches per epoch this gives
    exactly three updates. *)
Theorem early_stop (update : nat -> nat -> matrix -> nat -> row -> row)
        (base_id K : nat) (emb : matrix)
        (num_batches gradient_accumulation_steps max_train_steps : nat) :
  K >= 1 ->
  length emb = base_id + K ->
  num_batches >= 1 ->
  gradient_accumulation_steps >= 1 ->
  exists st,
    train_loop update (accumulate_sync gradient_accumulation_steps num_batches)
               (base_id + K) (seq base_id K) emb
               num_batches gradient_accumulation_steps max_train_steps = Ok st /\
    stopped max_train_steps st /\
    (num_batches = 10 -> max_train_steps = 3 -> optimizer_updates st = 3).
Proof.
  intros HK Hlen HL Hg. unfold train_loop.
  destruct K as [|K']; [lia|]. cbn [seq].
  unfold ceil_div.
  replace (gradient_accumulation_steps =? 0) with false
    by (symmetry; apply Nat.eqb_neq; lia).
  cbn [bind].
  set (U := (num_batches + gradient_accumulation_steps - 1) / gradient_accumulation_steps).
  destruct (ceil_div_bounds num_batches gradient_accumulation_steps Hg HL) as [HU _].
  fold U in HU.
  replace (U =? 0) with false by (symmetry; apply Nat.eqb_neq; lia).
  cbn [bind].
  assert (Hfinal : exists st,
             epoch_loop update (accumulate_sync gradient_accumulation_steps num_batches)
                        emb (arange_lt (base_id + S K') base_id) max_train_steps
                        num_batches (seq 0 ((max_train_steps + U - 1) / U))
                        (mkState emb 0 0 []) = Ok st /\
             stopped max_train_steps st).
  { destruct max_train_steps as [|m].
    - replace ((0 + U - 1) / U) with 0 by (symmetry; apply Nat.div_small; lia).
      exists (mkState emb 0 0 []). split; [reflexivity|]. now repeat split.
    - destruct (ceil_div_bounds (S m) U HU ltac:(lia)) as [HE [Hlow Hhigh]].
      destruct (epoch_loop_count update
                  (accumulate_sync gradient_accumulation_steps num_batches)
                  (base_id + S K') base_id (S K') emb (S m) num_batches U
                  (seq 0 ((S m + U - 1) / U)) eq_refl Hlen
                  (fun epoch => accumulate_sync_count _ _ epoch Hg HL)
                  (mkState emb 0 0 []))
        as [st [Hrun Hres]].
      + unfold running. cbn. repeat split; try lia. constructor.
      + rewrite length_seq. cbn [global_step]. lia.
      + rewrite length_seq in Hres. cbn [global_step] in Hres.
        replace (0 + (S m + U - 1) / U * U <? S m) with false in Hres
          by (symmetry; apply Nat.ltb_ge; lia).
        exists st. now split. }
  destruct Hfinal as [st [Hrun Hstop]].
  exists st. split; [exact Hrun|]. split; [exact Hstop|].
  intros _ Hmax. destruct Hstop as [_ [Hupd _]]. lia.
Qed.

Lemma frozen_rows_restored_witness :
  exists st,
    train_loop sample_update (accumulate_sync 2 10) (3 + 3) (seq 3 3) sample_resized
               10 2 7 = Ok st /\
    (forall r, r < 3 -> nth_error (weight st) r = nth_error sample_resized r) /\
    rows_kept 3 3 sample_resized (weight st) /\
    (forall gs w, In (gs, w) (history st) ->
                  (forall r, r < 3 -> nth_error w r = nth_error sample_resized r) /\
                  rows_kept 3 3 sample_resized w).
Proof.
  apply (frozen_rows_restored sample_update (accumulate_sync 2 10) 3 3 sample_resized
           10 2 7).
  - lia.
  - reflexivity.
  - lia.
  - lia.
Defined.

Lemma early_stop_witness :
  exists st,
    train_loop sample_update (accumulate_sync 1 10) (3 + 3) (seq 3 3) sample_resized
               10 1 3 = Ok st /\
    stopped 3 st /\
    (10 = 10 -> 3 = 3 -> optimizer_updates st = 3).
Proof.
  apply (early_stop sample_update 3 3 sample_resized 10 1 3).
  - lia.
  - reflexivity.
  - lia.
  - lia.
Defined.

(* ===================================================================== *)
(** ** Weight codec: further properties *)
(* ===================================================================== *)

(** Every tensor that [load_weights] returns is the promotion of a tensor
    read from the file. *)
Lemma load_weights_promoted (fs : filesystem) (file : string) (t : tensor) :
  load_weights fs file = Ok t ->
  exists emb, t = promote emb.
Proof.
  unfold load_weights, load_file, torch_load, bind, promote.
  destruct (is_safetensors file), (fs file) as [[ts | o]|]; try discriminate.
  - cbn. destruct ts as [|[k emb] ts]; cbn; [discriminate|].
    intros H. injection H as <-. now exists emb.
  - destruct o as [? | ? | items | ? | ?]; try discriminate.
    destruct (py_values (select_string_to_param items)) as [vals | e]; [|discriminate].
    destruct vals as [|v vals]; cbn; [discriminate|].
    destruct v as [emb | ? | ? | ? | ?]; try discriminate.
    intros H. injection H as <-. now exists emb.
Qed.

Lemma promote_rank (emb : tensor) : rank (promote emb) <> 1.
Proof.
  unfold promote. destruct (rank emb =? 1) eqn:H.
  - apply Nat.eqb_eq in H. unfold rank, unsqueeze0 in *. cbn. lia.
  - now apply Nat.eqb_neq in H.
Qed.

(** X1: whatever the file holds, a tensor returned by [load_weights] never
    has rank 1. *)
Theorem load_weights_never_rank1 (fs : filesystem) (file : string) (t : tensor) :
  load_weights fs file = Ok t ->
  rank t <> 1.
Proof.
  intros H. destruct (load_weights_promoted _ _ _ H) as [emb ->].
  apply promote_rank.
Qed.

Lemma load_weights_never_rank1_witness :
  rank (unsqueeze0 sample_vec) <> 1.
Proof.
  apply (load_weights_never_rank1 fs_rank1 "emb.safetensors" (unsqueeze0 sample_vec)).
  reflexivity.
Defined.

(** X3: a checkpoint whose value table is empty (an archive without
    entries, an empty dict, an empty dict under [string_to_param]) makes
    [load_weights] raise [StopIteration], not the [ValueError] of a
    malformed file. *)
Theorem load_weights_empty_table (fs : filesystem) (file : string) :
  (is_safetensors file = true /\ fs file = Some (SafetensorsArchive [])) \/
  (is_safetensors file = false /\
   exists items, fs file = Some (PickleFile (PyDict items)) /\ value_table items []) ->
  load_weights fs file = Err StopIteration.
Proof.
  intros [[Hext Hfile] | [Hext [items [Hfile Htable]]]].
  - unfold load_weights, load_file. now rewrite Hext, Hfile.
  - now rewrite (load_weights_pickle_table _ _ _ _ Hext Hfile Htable).
Qed.

Lemma load_weights_empty_table_witness :
  load_weights fs_empty_dict "emb.pt" = Err StopIteration.
Proof.
  apply (load_weights_empty_table fs_empty_dict "emb.pt").
  right. split; [reflexivity|]. exists []. split; [reflexivity|].
  apply table_direct. reflexivity.
Defined.

(** X4: a pickled dict whose [string_to_param] entry is an object without
    [values] and without [_parameters] (a number, a string, a list) makes
    [load_weights] raise [AttributeError]: this malformed file is not
    reported with the [ValueError] of the two type checks. *)
Theorem load_weights_nested_not_mapping (fs : filesystem) (file : string)
        (items : list (string * pyobj)) (repr : string) :
  is_safetensors file = false ->
  fs file = Some (PickleFile (PyDict items)) ->
  dict_get "string_to_param" items = Some (PyOther repr) ->
  load_weights fs file = Err AttributeError /\
  is_invalid_weight_file_error AttributeError = false.
Proof.
  intros Hext Hfile Hkey. split; [|reflexivity].
  unfold load_weights, torch_load. rewrite Hext, Hfile. cbn [bind].
  unfold select_string_to_param. now rewrite Hkey.
Qed.

Lemma load_weights_nested_not_mapping_witness :
  load_weights fs_nested_scalar "emb.pt" = Err AttributeError /\
  is_invalid_weight_file_error AttributeError = false.
Proof.
  apply (load_weights_nested_not_mapping fs_nested_scalar "emb.pt"
           [("string_to_param", PyOther "3"); ("name", PyOther "concept")] "3");
    reflexivity.
Defined.

Section CodecMore.

Variable convert : dtype -> dtype -> Z -> Z.

Lemma tensor_to_dtype (d : dtype) (t : tensor) :
  t_dtype (tensor_to convert d t) = d.
Proof.
  unfold tensor_to. destruct (dtype_eqb (t_dtype t) d) eqn:H; [|reflexivity].
  destruct (t_dtype t), d; (reflexivity || discriminate).
Qed.

Lemma tensor_to_same (d : dtype) (t : tensor) :
  t_dtype t = d -> tensor_to convert d t = t.
Proof.
  intros <-. unfold tensor_to. now destruct (t_dtype t).
Qed.

Lemma promote_dtype (t : tensor) : t_dtype (promote t) = t_dtype t.
Proof. unfold promote. now destruct (rank t =? 1). Qed.

Lemma promote_idem (t : tensor) : promote (promote t) = promote t.
Proof.
  unfold promote at 1.
  replace (rank (promote t) =? 1) with false; [reflexivity|].
  symmetry. apply Nat.eqb_neq, promote_rank.
Qed.

Variable create_error : string -> option pyerror.

Lemma save_weights_ok_accepts (fs fs' : filesystem) (file : string)
      (o : tensor_object) (save_dtype : option dtype) :
  save_weights convert create_error fs file o save_dtype = Ok fs' ->
  writer_accepts create_error file (written_object convert o save_dtype) = true.
Proof.
  unfold save_weights, save_file, torch_save, writer_accepts.
  destruct (is_safetensors file).
  - destruct save_dtype as [d|]; cbn;
      match goal with
      | |- context [is_contiguous ?l] => destruct (is_contiguous l)
      end;
      destruct (create_error file); (discriminate || reflexivity).
  - destruct (String.eqb (torch_archive_name file) EmptyString); [discriminate|].
    destruct (create_error file); (discriminate || reflexivity).
Qed.

(** What [load_weights] returns, if anything, after a successful save. *)
Lemma save_weights_then_load (fs fs' : filesystem) (file : string)
      (o : tensor_object) (save_dtype : option dtype) (loaded : tensor) :
  save_weights convert create_error fs file o save_dtype = Ok fs' ->
  load_weights fs' file = Ok loaded ->
  loaded = promote (stored_value convert (obj_tensor o) save_dtype).
Proof.
  intros Hsave Hload.
  pose proof (save_weights_ok_accepts _ _ _ _ _ Hsave) as Hacc.
  destruct (loads_back file (written_object convert o save_dtype)) eqn:Hback.
  - destruct (save_weights_stores convert create_error fs file o save_dtype Hacc Hback)
      as [fs2 [c [Hsave2 [Hc Hst]]]].
    rewrite Hsave in Hsave2. injection Hsave2 as <-.
    rewrite (load_weights_stored _ _ _ _ Hc Hst) in Hload.
    now injection Hload as <-.
  - rewrite (save_weights_written convert create_error fs file o save_dtype Hacc) in Hsave.
    injection Hsave as <-.
    unfold loads_back in Hback. apply orb_false_iff in Hback.
    destruct Hback as [Hext Hpar]. apply negb_false_iff in Hpar.
    rewrite Hext in Hload. unfold pickled in Hload. rewrite Hpar in Hload.
    assert (Htable :
              value_table
                [("emb_params",
                  PyParameter (obj_tensor (written_object convert o save_dtype)))]
                [("emb_params",
                  PyParameter (obj_tensor (written_object convert o save_dtype)))])
      by (apply table_direct; reflexivity).
    rewrite (load_weights_pickle_table _ file _ _ Hext (write_file_same _ _ _) Htable)
      in Hload.
    discriminate Hload.
Qed.

(** X5: save followed by load for a tensor of any rank. When the writer
    chosen by the extension accepts the object and what it writes passes
    the type check on load, [save_weights] succeeds and [load_weights]
    returns the tensor handed to the writer (converted to [save_dtype] when
    given), with a rank-1 tensor coming back as rank 2. *)
Theorem save_load_any_rank (fs : filesystem) (file : string) (o : tensor_object)
        (save_dtype : option dtype) :
  writer_accepts create_error file (written_object convert o save_dtype) = true ->
  loads_back file (written_object convert o save_dtype) = true ->
  exists fs',
    save_weights convert create_error fs file o save_dtype = Ok fs' /\
    load_weights fs' file
    = Ok (promote (stored_value convert (obj_tensor o) save_dtype)).
Proof.
  intros Hacc Hback.
  destruct (save_weights_stores convert create_error fs file o save_dtype Hacc Hback)
    as [fs' [c [Hsave [Hc Hst]]]].
  exists fs'. split; [exact Hsave|].
  now rewrite (load_weights_stored _ _ _ _ Hc Hst).
Qed.

(** X6: a loaded checkpoint is a fixed point of the codec. If a save
    succeeded and [load_weights] returned a tensor from the file, then
    saving that tensor again with the same [save_dtype], to any file whose
    writer accepts it, succeeds, and loading it gives that tensor back bit
    for bit. *)
Theorem save_load_fixed_point (fs fs1 fs' : filesystem) (file file' : string)
        (o : tensor_object) (loaded : tensor) (layout' : layout)
        (save_dtype : option dtype) :
  save_weights convert create_error fs file o save_dtype = Ok fs1 ->
  load_weights fs1 file = Ok loaded ->
  writer_accepts create_error file'
                 (written_object convert (mkObject loaded layout' false) save_dtype)
  = true ->
  exists fs2,
    save_weights convert create_error fs' file' (mkObject loaded layout' false) save_dtype
    = Ok fs2 /\
    load_weights fs2 file' = Ok loaded.
Proof.
  intros Hsave Hload Hacc.
  pose proof (save_weights_then_load _ _ _ _ _ _ Hsave Hload) as Hloaded.
  assert (Hback : loads_back file'
                    (written_object convert (mkObject loaded layout' false) save_dtype)
                  = true).
  { unfold loads_back. destruct save_dtype; cbn; apply orb_true_r. }
  destruct (save_weights_stores convert create_error fs' file'
              (mkObject loaded layout' false) save_dtype Hacc Hback)
    as [fs2 [c [Hsave2 [Hc Hst]]]].
  exists fs2. split; [exact Hsave2|].
  rewrite (load_weights_stored _ _ _ _ Hc Hst). fold (promote (stored_value convert
    (obj_tensor (mkObject loaded layout' false)) save_dtype)).
  cbn [obj_tensor]. f_equal.
  assert (Hst' : stored_value convert loaded save_dtype = loaded).
  { destruct save_dtype as [d|]; cbn [stored_value]; [|reflexivity].
    apply tensor_to_same. rewrite Hloaded, promote_dtype. apply tensor_to_dtype. }
  rewrite Hst', Hloaded. apply promote_idem.
Qed.

End CodecMore.

Lemma save_load_any_rank_witness :
  exists fs',
    save_weights sample_convert no_error empty_fs "vec.pt" sample_vec_object (Some Float16)
    = Ok fs' /\
    load_weights fs' "vec.pt"
    = Ok (promote (stored_value sample_convert (obj_tensor sample_vec_object)
                                (Some Float16))).
Proof.
  apply (save_load_any_rank sample_convert no_error empty_fs "vec.pt"
           sample_vec_object (Some Float16)); reflexivity.
Defined.

Lemma save_load_fixed_point_witness :
  exists fs2,
    save_weights sample_convert no_error fs_legacy "copy.pt"
                 (mkObject (unsqueeze0 (tensor_to sample_convert Float16 sample_vec))
                           Contiguous false)
                 (Some Float16)
    = Ok fs2 /\
    load_weights fs2 "copy.pt"
    = Ok (unsqueeze0 (tensor_to sample_convert Float16 sample_vec)).
Proof.
  apply (save_load_fixed_point sample_convert no_error empty_fs
           (write_file empty_fs "emb.safetensors"
              (SafetensorsArchive
                 [("emb_params", tensor_to sample_convert Float16 sample_vec)]))
           fs_legacy "emb.safetensors" "copy.pt" sample_vec_object
           (unsqueeze0 (tensor_to sample_convert Float16 sample_vec))
           Contiguous (Some Float16)); reflexivity.
Defined.

(* ===================================================================== *)
(** ** Token registrar: further properties *)
(* ===================================================================== *)

(** X7: the generated token strings are pairwise distinct, whatever the
    prefix, and there are [max K 1] of them: asking for zero vectors still
    produces the prefix itself. *)
Theorem token_strings_distinct (token_string : string) (K : nat) :
  NoDup (token_strings token_string K) /\
  length (token_strings token_string K) = Nat.max K 1 /\
  hd_error (token_strings token_string K) = Some token_string.
Proof.
  split; [apply token_strings_NoDup|]. split; [|reflexivity].
  unfold token_strings. cbn. rewrite length_map, length_seq. lia.
Qed.

Lemma filter_full_length {A : Type} (f : A -> bool) (l : list A) :
  length (filter f l) = length l ->
  forall x, In x l -> f x = true.
Proof.
  induction l as [|a l IH]; intros Hlen x Hx; [destruct Hx|].
  cbn in Hlen. pose proof (filter_length_le f l) as Hle.
  destruct (f a) eqn:Hfa; cbn in Hlen; [|lia].
  destruct Hx as [<- | Hx]; [exact Hfa|]. apply IH; [lia | exact Hx].
Qed.

Section RegistrarMore.

Variable fresh_row : nat -> row.

(** The outcome of registration when all generated strings are new. *)
Lemma register_tokens_all_fresh (tk : tokenizer) (emb : matrix)
      (token_string : string) (K : nat) :
  K >= 1 ->
  (forall s, In s (token_strings token_string K) -> ~ In s (vocab tk)) ->
  register_tokens fresh_row tk emb token_string K
  = (mkTokenizer (vocab tk ++ token_strings token_string K) (unk_token_id tk),
     Ok (seq (tokenizer_len tk) K,
         resize_token_embeddings fresh_row (tokenizer_len tk + K) emb)).
Proof.
  intros HK Hfresh.
  pose proof (token_strings_NoDup token_string K) as Hnd.
  pose proof (token_strings_length token_string K HK) as Hlen.
  unfold register_tokens, add_tokens.
  rewrite tokens_to_add_filter by (exact Hnd || intros s _ []).
  rewrite filter_absent_all by exact Hfresh. cbn [app].
  rewrite Hlen, Nat.eqb_refl. cbn [negb].
  rewrite convert_appended_ids by assumption. rewrite Hlen.
  unfold tokenizer_len. cbn [vocab]. rewrite length_app, Hlen.
  destruct K as [|K']; [lia|]. cbn [seq].
  change (length (vocab tk) :: seq (S (length (vocab tk))) K')
    with (seq (length (vocab tk)) (S K')).
  rewrite min_list_seq by lia. rewrite last_seq by lia.
  rewrite length_seq, Nat.eqb_refl.
  replace (Z.of_nat (length (vocab tk) + S K' - 1) =?
           Z.of_nat (length (vocab tk)) + Z.of_nat (S K') - 1)%Z
    with true by (symmetry; apply Z.eqb_eq; lia).
  replace (Z.of_nat (length (vocab tk) + S K') - 1 =?
           Z.of_nat (length (vocab tk) + S K' - 1))%Z
    with true by (symmetry; apply Z.eqb_eq; lia).
  reflexivity.
Qed.

(** What a successful registration implies. *)
Lemma register_tokens_ok_inv (tk tk' : tokenizer) (emb emb' : matrix)
        (token_string : string) (K : nat) (token_ids : list nat) :
  K >= 1 ->
  register_tokens fresh_row tk emb token_string K = (tk', Ok (token_ids, emb')) ->
  (forall s, In s (token_strings token_string K) -> ~ In s (vocab tk)) /\
  token_ids = seq (tokenizer_len tk) K /\
  vocab tk' = vocab tk ++ token_strings token_string K /\
  length emb' = tokenizer_len tk + K /\
  emb' = resize_token_embeddings fresh_row (tokenizer_len tk + K) emb.
Proof.
  intros HK Hrun.
  pose proof (token_strings_NoDup token_string K) as Hnd.
  pose proof (token_strings_length token_string K HK) as Hlen.
  assert (Hfresh : forall s, In s (token_strings token_string K) -> ~ In s (vocab tk)).
  { unfold register_tokens, add_tokens in Hrun.
    rewrite tokens_to_add_filter in Hrun by (exact Hnd || intros s _ []).
    cbn [app] in Hrun.
    destruct (length (filter (fun s => negb (mem_string s (vocab tk)))
                             (token_strings token_string K)) =? K) eqn:Hadded;
      [|cbn in Hrun; discriminate].
    apply Nat.eqb_eq in Hadded.
    assert (Hfull : length (filter (fun s => negb (mem_string s (vocab tk)))
                                   (token_strings token_string K))
                    = length (token_strings token_string K))
      by (rewrite Hlen; exact Hadded).
    intros s Hs. apply mem_string_not_In.
    pose proof (filter_full_length _ _ Hfull s Hs) as Hneg.
    cbv beta in Hneg. now apply negb_true_iff in Hneg. }
  rewrite (register_tokens_all_fresh tk emb token_string K HK Hfresh) in Hrun.
  injection Hrun as <- <- <-.
  split; [exact Hfresh|]. split; [reflexivity|]. split; [reflexivity|].
  split; [|reflexivity].
  unfold resize_token_embeddings.
  rewrite length_app, length_firstn, length_map, length_seq. lia.
Qed.

(** X8: whenever registration of [K >= 1] strings gets past its
    assertions, none of the generated strings was in the vocabulary before,
    the returned ids are [V .. V+K-1], the generated strings were appended
    in order and the table has [V+K] rows: a success never hides a
    conflict. *)
Theorem register_tokens_success (tk tk' : tokenizer) (emb emb' : matrix)
        (token_string : string) (K : nat) (token_ids : list nat) :
  K >= 1 ->
  register_tokens fresh_row tk emb token_string K = (tk', Ok (token_ids, emb')) ->
  (forall s, In s (token_strings token_string K) -> ~ In s (vocab tk)) /\
  token_ids = seq (tokenizer_len tk) K /\
  vocab tk' = vocab tk ++ token_strings token_string K /\
  length emb' = tokenizer_len tk + K.
Proof.
  intros HK Hrun.
  destruct (register_tokens_ok_inv tk tk' emb emb' token_string K token_ids HK Hrun)
    as [H1 [H2 [H3 [H4 _]]]].
  repeat split; assumption.
Qed.

End RegistrarMore.

Lemma register_tokens_success_witness :
  (forall s, In s (token_strings "sks" 2) -> ~ In s (vocab sample_tokenizer)) /\
  [3; 4] = seq (tokenizer_len sample_tokenizer) 2 /\
  vocab (mkTokenizer ["<unk>"; "a"; "cat"; "sks"; "sks1"] 0)
  = vocab sample_tokenizer ++ token_strings "sks" 2 /\
  length (resize_token_embeddings sample_fresh_row 5 sample_table)
  = tokenizer_len sample_tokenizer + 2.
Proof.
  apply (register_tokens_success sample_fresh_row sample_tokenizer
           (mkTokenizer ["<unk>"; "a"; "cat"; "sks"; "sks1"] 0)
           sample_table (resize_token_embeddings sample_fresh_row 5 sample_table)
           "sks" 2 [3; 4]).
  - lia.
  - reflexivity.
Defined.

Lemma set_row_some (m m' : matrix) (i : nat) (r : row) :
  set_row m i r = Some m' ->
  i < length m /\
  length m' = length m /\
  nth_error m' i = Some r /\
  (forall j, j <> i -> nth_error m' j = nth_error m j).
Proof.
  intros H.
  assert (Hi : i < length m).
  { revert i m' H. induction m as [|x m IH]; intros i m' H; [discriminate|].
    destruct i as [|i]; cbn in *; [lia|].
    destruct (set_row m i r) as [m''|] eqn:Hset; [|discriminate].
    specialize (IH i m'' Hset). lia. }
  split; [exact Hi|].
  destruct (set_row_spec m i r Hi) as [m2 [Hset Hrest]].
  rewrite Hset in H. injection H as <-. exact Hrest.
Qed.

Lemma init_rows_untouched (init_token_ids token_ids : list nat) :
  forall (i : nat) (emb emb' : matrix),
    init_rows emb init_token_ids i token_ids = Ok emb' ->
    length emb' = length emb /\
    forall j, ~ In j token_ids -> nth_error emb' j = nth_error emb j.
Proof.
  induction token_ids as [|token_id rest IH]; intros i emb emb' Hrun.
  - cbn in Hrun. injection Hrun as <-. now split.
  - cbn [init_rows] in Hrun.
    destruct (length init_token_ids =? 0); [discriminate|].
    destruct (nth_error init_token_ids (i mod length init_token_ids)) as [init_id|];
      [|discriminate].
    destruct (nth_error emb init_id) as [r|]; [|discriminate].
    destruct (set_row emb token_id r) as [emb1|] eqn:Hset; [|discriminate].
    destruct (set_row_some _ _ _ _ Hset) as [_ [Hlen1 [_ Hother]]].
    destruct (IH (S i) emb1 emb' Hrun) as [Hlen' Hframe].
    split; [lia|]. intros j Hj.
    rewrite Hframe by (intros Hin; apply Hj; now right).
    apply Hother. intros ->. apply Hj. now left.
Qed.

(** X9: the initialisation loop writes nowhere else: whenever it
    succeeds, for any initializer ids and any target ids, the table keeps
    its number of rows and every row whose index is not a target id. *)
Theorem init_rows_frame (init_token_ids token_ids : list nat)
        (i : nat) (emb emb' : matrix) :
  init_rows emb init_token_ids i token_ids = Ok emb' ->
  length emb' = length emb /\
  forall j, ~ In j token_ids -> nth_error emb' j = nth_error emb j.
Proof. exact (init_rows_untouched init_token_ids token_ids i emb emb'). Qed.

Lemma init_rows_frame_witness :
  length [[10; 11]; [20; 21]; [30; 31]; [30; 31]; [20; 21]; [30; 31]]%Z
  = length sample_resized /\
  forall j, ~ In j [3; 4; 5] ->
            nth_error [[10; 11]; [20; 21]; [30; 31]; [30; 31]; [20; 21]; [30; 31]]%Z j
            = nth_error sample_resized j.
Proof.
  apply (init_rows_frame [2; 1] [3; 4; 5] 0 sample_resized
           [[10; 11]; [20; 21]; [30; 31]; [30; 31]; [20; 21]; [30; 31]]%Z).
  reflexivity.
Defined.

(* ===================================================================== *)
(** ** Loading pretrained rows and resuming from a checkpoint *)
(* ===================================================================== *)

Lemma chunks_length (k d : nat) : forall data, length (chunks k d data) = k.
Proof. induction k as [|k IH]; intros data; cbn; [reflexivity | now rewrite IH]. Qed.

Lemma chunks_nth (k d : nat) :
  forall (data : list Z) (i : nat),
    i < k ->
    nth_error (chunks k d data) i = Some (firstn d (skipn (i * d) data)).
Proof.
  induction k as [|k IH]; intros data i Hi; [lia|].
  destruct i as [|i]; cbn [chunks nth_error]; [reflexivity|].
  rewrite IH by lia. rewrite skipn_skipn. do 3 f_equal. lia.
Qed.

Lemma firstn_skipn_app (r l : list Z) :
  firstn (length r) (r ++ l) = r /\ skipn (length r) (r ++ l) = l.
Proof.
  induction r as [|x r [IH1 IH2]]; cbn; [now split|].
  rewrite IH1, IH2. now split.
Qed.

Lemma chunks_concat (d : nat) (rows : list row) :
  Forall (fun r => length r = d) rows ->
  chunks (length rows) d (concat rows) = rows.
Proof.
  induction rows as [|r rows IH]; intros Hw; [reflexivity|].
  inversion Hw as [|r' rows' Hr Hrows]; subst.
  cbn [length chunks concat].
  destruct (firstn_skipn_app r (concat rows)) as [H1 H2].
  rewrite H1, H2. now rewrite IH.
Qed.

Lemma promote_rank2 (t : tensor) (K D : nat) :
  t_shape t = [K; D] -> promote t = t.
Proof. intros H. unfold promote, rank. now rewrite H. Qed.

Section CheckpointFacts.

Variable convert : dtype -> dtype -> Z -> Z.
Variable create_error : string -> option pyerror.
Variable makedirs_error : string -> option pyerror.
Variable table_dtype : dtype.
Variable embed_dim : nat.

(** A fresh, contiguous, plain tensor is accepted by either writer as soon
    as the file can be created and, for the pickle writer, named. *)
Lemma writer_accepts_fresh (file : string) (t : tensor) (save_dtype : option dtype) :
  create_error file = None ->
  (is_safetensors file = false -> torch_archive_name file <> EmptyString) ->
  writer_accepts create_error file
                 (written_object convert (mkObject t Contiguous false) save_dtype) = true /\
  loads_back file (written_object convert (mkObject t Contiguous false) save_dtype) = true.
Proof.
  intros Hcreate Hname. unfold writer_accepts, loads_back. rewrite Hcreate.
  destruct (is_safetensors file).
  - split; [now destruct save_dtype | reflexivity].
  - split; [|now destruct save_dtype].
    apply negb_true_iff, String.eqb_neq. now apply Hname.
Qed.

Lemma convert_row_length (src : dtype) (value : list Z) :
  length (convert_row convert table_dtype src value) = length value.
Proof.
  unfold convert_row. destruct (dtype_eqb src table_dtype); [reflexivity|].
  apply length_map.
Qed.

(** The assignment loop over the ids [a, a+1, ...] when every target row
    has the width of the row assigned to it. *)
Lemma assign_rows_seq (src : dtype) (D : nat) (rows : list row) :
  forall (a : nat) (emb : matrix),
    Forall (fun r => length r = D) rows ->
    (forall j, a <= j < a + length rows ->
               exists target, nth_error emb j = Some target /\ length target = D) ->
    exists emb',
      assign_rows convert table_dtype src emb (combine (seq a (length rows)) rows)
      = Ok emb' /\
      length emb' = length emb /\
      (forall j, j < a \/ a + length rows <= j -> nth_error emb' j = nth_error emb j) /\
      (forall k r, nth_error rows k = Some r ->
                   nth_error emb' (a + k)
                   = Some (convert_row convert table_dtype src r)).
Proof.
  induction rows as [|r rows IH]; intros a emb Hw Htarget.
  - exists emb. cbn. repeat split. intros k r Hk. now destruct k.
  - inversion Hw as [|r' rows' Hr Hrows]; subst.
    cbn [length seq combine assign_rows].
    destruct (Htarget a) as [target [Hta Hlen]]; [cbn; lia|].
    rewrite Hta. unfold assigned_row.
    rewrite convert_row_length, Hlen, Nat.eqb_refl. cbn [bind].
    assert (Ha : a < length emb) by (apply nth_error_Some; now rewrite Hta).
    destruct (set_row_spec emb a (convert_row convert table_dtype src r) Ha)
      as [emb1 [Hset [Hlen1 [Hrow Hother]]]].
    rewrite Hset.
    destruct (IH (S a) emb1 Hrows) as [emb' [Hrun [Hlen' [Hout Hnew]]]].
    { intros j Hj. rewrite Hother by lia. apply Htarget. cbn. lia. }
    exists emb'. split; [exact Hrun|]. split; [lia|]. split.
    + intros j Hj. cbn in Hj. rewrite Hout by lia. apply Hother. lia.
    + intros k r0 Hk. destruct k as [|k]; cbn in Hk.
      * injection Hk as <-. rewrite Nat.add_0_r, Hout by lia. exact Hrow.
      * replace (a + S k) with (S a + k) by lia. now apply Hnew.
Qed.

(** X10: when the weight file stores a [K' x D] tensor and [K'] differs
    from the number of token ids, the loading step stops on its assertion,
    whose message reports [K']. *)
Theorem load_initial_weights_mismatch (fs : filesystem) (file : string)
        (c : file_content) (t : tensor) (K' D : nat)
        (token_embeds : matrix) (token_ids : list nat) :
  fs file = Some c ->
  stores_tensor file c t ->
  t_shape t = [K'; D] ->
  length token_ids <> K' ->
  load_initial_weights convert table_dtype fs (Some file) token_embeds token_ids
  = Some (Err (AssertionError (weights_mismatch_msg K'))).
Proof.
  intros Hfile Hst Hshape Hne. unfold load_initial_weights.
  rewrite (load_weights_stored _ _ _ _ Hfile Hst).
  fold (promote t). rewrite (promote_rank2 t K' D Hshape).
  unfold tensor_rows. rewrite Hshape, chunks_length.
  now replace (length token_ids =? K') with false by (symmetry; now apply Nat.eqb_neq).
Qed.

(** The loading step on a loaded, well-formed [K x D] tensor. *)
Lemma load_loaded_rows (fs : filesystem) (file : string)
        (t : tensor) (K D V : nat) (token_embeds : matrix) :
  load_weights fs file = Ok t ->
  t_shape t = [K; D] ->
  length (t_data t) = K * D ->
  (forall j, V <= j < V + K ->
             exists target, nth_error token_embeds j = Some target /\ length target = D) ->
  exists token_embeds',
    load_initial_weights convert table_dtype fs (Some file) token_embeds (seq V K)
    = Some (Ok token_embeds') /\
    length token_embeds' = length token_embeds /\
    (forall j, j < V \/ V + K <= j ->
               nth_error token_embeds' j = nth_error token_embeds j) /\
    (forall i, i < K ->
               nth_error token_embeds' (V + i)
               = Some (convert_row convert table_dtype (t_dtype t)
                                   (firstn D (skipn (i * D) (t_data t))))).
Proof.
  intros Hload Hshape Hdata Htarget. unfold load_initial_weights.
  rewrite Hload.
  unfold tensor_rows. rewrite Hshape, chunks_length, length_seq, Nat.eqb_refl.
  assert (Hw : Forall (fun r => length r = D) (chunks K D (t_data t))).
  { apply Forall_forall. intros r Hr. apply In_nth_error in Hr. destruct Hr as [i Hi].
    assert (HiK : i < K).
    { pose proof (proj1 (nth_error_Some (chunks K D (t_data t)) i)) as Hlt.
      rewrite chunks_length in Hlt. apply Hlt. intros Hn.
      assert (Hsome : Some r = None) by (rewrite <- Hi; exact Hn). discriminate. }
    pose proof (chunks_nth K D (t_data t) i HiK) as Hc.
    assert (Hr' : Some r = Some (firstn D (skipn (i * D) (t_data t))))
      by (rewrite <- Hi; exact Hc).
    injection Hr' as ->.
    rewrite length_firstn, length_skipn. nia. }
  destruct (assign_rows_seq (t_dtype t) D (chunks K D (t_data t)) V token_embeds Hw)
    as [emb' [Hrun [Hlen [Hout Hnew]]]].
  { rewrite chunks_length. exact Htarget. }
  rewrite chunks_length in Hrun, Hout.
  exists emb'. split; [now rewrite Hrun|]. split; [exact Hlen|]. split; [exact Hout|].
  intros i Hi. apply Hnew. now apply chunks_nth.
Qed.

(** The loading step on a stored, well-formed [K x D] tensor. *)
Lemma load_stored_rows (fs : filesystem) (file : string)
        (c : file_content) (t : tensor) (K D V : nat) (token_embeds : matrix) :
  fs file = Some c ->
  stores_tensor file c t ->
  t_shape t = [K; D] ->
  length (t_data t) = K * D ->
  (forall j, V <= j < V + K ->
             exists target, nth_error token_embeds j = Some target /\ length target = D) ->
  exists token_embeds',
    load_initial_weights convert table_dtype fs (Some file) token_embeds (seq V K)
    = Some (Ok token_embeds') /\
    length token_embeds' = length token_embeds /\
    (forall j, j < V \/ V + K <= j ->
               nth_error token_embeds' j = nth_error token_embeds j) /\
    (forall i, i < K ->
               nth_error token_embeds' (V + i)
               = Some (convert_row convert table_dtype (t_dtype t)
                                   (firstn D (skipn (i * D) (t_data t))))).
Proof.
  intros Hfile Hst Hshape. apply load_loaded_rows; [|exact Hshape].
  rewrite (load_weights_stored _ _ _ _ Hfile Hst).
  fold (promote t). now rewrite (promote_rank2 t K D Hshape).
Qed.

(** X17: a checkpoint that stores a single vector as a rank-1 tensor of
    length [D] initialises exactly one token: with one token id the row is
    set to the vector (converted to the element type of the table), with
    any other number of ids the assertion fails and reports one vector. *)
Theorem load_initial_weights_rank1 (fs : filesystem) (file : string)
        (c : file_content) (t : tensor) (D V : nat) (token_embeds : matrix)
        (target : row) (token_ids : list nat) :
  fs file = Some c ->
  stores_tensor file c t ->
  t_shape t = [D] ->
  length (t_data t) = D ->
  nth_error token_embeds V = Some target ->
  length target = D ->
  length token_ids <> 1 ->
  (exists token_embeds',
      load_initial_weights convert table_dtype fs (Some file) token_embeds [V]
      = Some (Ok token_embeds') /\
      nth_error token_embeds' V
      = Some (convert_row convert table_dtype (t_dtype t) (t_data t)) /\
      forall j, j <> V -> nth_error token_embeds' j = nth_error token_embeds j) /\
  load_initial_weights convert table_dtype fs (Some file) token_embeds token_ids
  = Some (Err (AssertionError (weights_mismatch_msg 1))).
Proof.
  intros Hfile Hst Hshape Hdata Hrow Hwidth Hids.
  assert (Hload : load_weights fs file = Ok (unsqueeze0 t)).
  { rewrite (load_weights_stored _ _ _ _ Hfile Hst). unfold rank. now rewrite Hshape. }
  split.
  - destruct (load_loaded_rows fs file (unsqueeze0 t) 1 D V token_embeds Hload)
      as [emb' [Hrun [_ [Hout Hnew]]]].
    + cbn. now rewrite Hshape.
    + cbn. lia.
    + intros j Hj. assert (j = V) by lia. subst j. now exists target.
    + exists emb'. split; [exact Hrun|]. split.
      * specialize (Hnew 0 ltac:(lia)). rewrite Nat.add_0_r in Hnew.
        rewrite Hnew. cbn [unsqueeze0 t_dtype t_data Nat.mul skipn].
        rewrite <- Hdata at 1. now rewrite firstn_all.
      * intros j Hj. apply Hout. lia.
  - unfold load_initial_weights. rewrite Hload.
    unfold tensor_rows. cbn [unsqueeze0 t_shape]. rewrite Hshape. cbn [chunks length].
    now replace (length token_ids =? 1) with false by (symmetry; now apply Nat.eqb_neq).
Qed.

Lemma assign_rows_untouched (src : dtype) (pairs : list (nat * row)) :
  forall (emb emb' : matrix),
    assign_rows convert table_dtype src emb pairs = Ok emb' ->
    length emb' = length emb /\
    forall j, ~ In j (map fst pairs) -> nth_error emb' j = nth_error emb j.
Proof.
  induction pairs as [|[token_id embedding] rest IH]; intros emb emb' Hrun.
  - cbn in Hrun. injection Hrun as <-. now split.
  - cbn [assign_rows] in Hrun.
    destruct (nth_error emb token_id) as [target|]; [|discriminate].
    destruct (assigned_row convert table_dtype src target embedding) as [v|];
      [|discriminate].
    cbn [bind] in Hrun.
    destruct (set_row emb token_id v) as [emb1|] eqn:Hset; [|discriminate].
    destruct (set_row_some _ _ _ _ Hset) as [_ [Hlen1 [_ Hother]]].
    destruct (IH emb1 emb' Hrun) as [Hlen' Hframe].
    split; [lia|]. intros j Hj. cbn [map fst In] in Hj.
    rewrite Hframe by (intros Hin; apply Hj; now right).
    apply Hother. intros ->. apply Hj. now left.
Qed.

(** The loading step, whatever the file holds, writes only rows of the
    token ids. *)
Lemma load_initial_weights_untouched (fs : filesystem) (weights : option string)
      (emb emb' : matrix) (token_ids : list nat) :
  load_initial_weights convert table_dtype fs weights emb token_ids = Some (Ok emb') ->
  length emb' = length emb /\
  forall j, ~ In j token_ids -> nth_error emb' j = nth_error emb j.
Proof.
  unfold load_initial_weights. destruct weights as [file|].
  - destruct (load_weights fs file) as [t|]; [|discriminate].
    destruct (tensor_rows t) as [rows|]; [|discriminate].
    destruct (length token_ids =? length rows) eqn:Hlen; [|discriminate].
    intros H. injection H as H.
    destruct (assign_rows_untouched _ _ _ _ H) as [Hl Hframe].
    split; [exact Hl|]. intros j Hj. apply Hframe.
    intros Hin. apply Hj. apply in_map_iff in Hin.
    destruct Hin as [[id r] [<- Hin]]. cbn. eapply in_combine_l, Hin.
  - intros H. injection H as <-. now split.
Qed.

Lemma gather_rows_nth (w : matrix) :
  forall (ids : list nat) (rows : list row),
    gather_rows w ids = Ok rows ->
    length rows = length ids /\
    forall i, i < length ids -> nth_error rows i = nth_error w (nth i ids 0).
Proof.
  induction ids as [|id ids IH]; intros rows H; cbn in H.
  - injection H as <-. split; [reflexivity|]. cbn. lia.
  - destruct (nth_error w id) as [r|] eqn:Hr; [|discriminate].
    destruct (gather_rows w ids) as [rs|]; [|discriminate].
    cbn in H. injection H as <-.
    destruct (IH rs eq_refl) as [Hlen Hnth].
    split; [cbn; now rewrite Hlen|].
    intros [|i] Hi; cbn; [now rewrite Hr | apply Hnth; cbn in Hi; lia].
Qed.

Lemma gather_rows_ok (w : matrix) (ids : list nat) :
  Forall (fun i => i < length w) ids ->
  exists rows, gather_rows w ids = Ok rows.
Proof.
  induction ids as [|id ids IH]; intros H; cbn; [now eexists|].
  inversion H as [|id' ids' Hid Hids]; subst.
  destruct (nth_error w id) as [r|] eqn:Hr; [|apply nth_error_None in Hr; lia].
  destruct (IH Hids) as [rows ->]. cbn. now eexists.
Qed.

Lemma gather_rows_In (w : matrix) :
  forall (ids : list nat) (rows : list row),
    gather_rows w ids = Ok rows ->
    forall r, In r rows -> In r w.
Proof.
  induction ids as [|id ids IH]; intros rows H r Hr; cbn in H.
  - injection H as <-. destruct Hr.
  - destruct (nth_error w id) as [r0|] eqn:Hr0; [|discriminate].
    destruct (gather_rows w ids) as [rs|]; [|discriminate].
    cbn in H. injection H as <-.
    destruct Hr as [<- | Hr]; [eapply nth_error_In, Hr0 | now apply (IH rs)].
Qed.

Lemma concat_uniform_length (D : nat) (rows : list row) :
  Forall (fun r => length r = D) rows ->
  length (concat rows) = length rows * D.
Proof.
  induction rows as [|r rows IH]; intros Hw; [reflexivity|].
  inversion Hw as [|r' rows' Hr Hrows]; subst.
  cbn. rewrite length_app, IH by exact Hrows. reflexivity.
Qed.

Lemma concat_slice (D : nat) (rows : list row) (i : nat) (r : row) :
  Forall (fun r => length r = D) rows ->
  nth_error rows i = Some r ->
  firstn D (skipn (i * D) (concat rows)) = r.
Proof.
  intros Hw Hi.
  assert (Hlt : i < length rows) by (apply nth_error_Some; rewrite Hi; discriminate).
  pose proof (chunks_nth (length rows) D (concat rows) i Hlt) as Hc.
  rewrite (chunks_concat D rows Hw) in Hc.
  assert (Heq : Some r = Some (firstn D (skipn (i * D) (concat rows))))
    by (rewrite <- Hi; exact Hc).
  now injection Heq as <-.
Qed.

Lemma dtype_eqb_refl (d : dtype) : dtype_eqb d d = true.
Proof. now destruct d. Qed.

Lemma dtype_eqb_sym (a b : dtype) : dtype_eqb a b = dtype_eqb b a.
Proof. now destruct a, b. Qed.

(** X11: when the weight file stores a well-formed [K x D] tensor and the
    [K] new rows [V .. V+K-1] of the table have width [D], the loading step
    succeeds, row [V+i] becomes row [i] of the tensor converted to the
    element type of the table, and no other row changes. *)
Theorem load_initial_weights_rows (fs : filesystem) (file : string)
        (c : file_content) (t : tensor) (K D V : nat) (token_embeds : matrix) :
  fs file = Some c ->
  stores_tensor file c t ->
  t_shape t = [K; D] ->
  length (t_data t) = K * D ->
  (forall j, V <= j < V + K ->
             exists target, nth_error token_embeds j = Some target /\ length target = D) ->
  exists token_embeds',
    load_initial_weights convert table_dtype fs (Some file) token_embeds (seq V K)
    = Some (Ok token_embeds') /\
    length token_embeds' = length token_embeds /\
    (forall j, j < V \/ V + K <= j ->
               nth_error token_embeds' j = nth_error token_embeds j) /\
    (forall i, i < K ->
               nth_error token_embeds' (V + i)
               = Some (convert_row convert table_dtype (t_dtype t)
                                   (firstn D (skipn (i * D) (t_data t))))).
Proof. exact (load_stored_rows fs file c t K D V token_embeds). Qed.

(** X12: resuming from the final checkpoint. When the output directory is
    named and can be created, and the checkpoint file can be created and,
    on the pickle branch, has a non-empty archive name, the end of [train]
    extracts and saves the rows of the new token ids; loading that file
    into the [K] new rows [V .. V+K-1] of another table of the same width
    and element type succeeds and gives row [V+i] the content of the saved
    row of [token_ids[i]]: exactly when the checkpoint was written without
    conversion, converted to [save_dtype] and back otherwise. No other row
    of the target table changes. *)
Theorem resume_from_final_checkpoint (fs : filesystem)
        (output_dir model_name save_model_as : string)
        (w : matrix) (token_ids : list nat) (save_dtype : option dtype)
        (K V : nat) (target : matrix) :
  length token_ids = K ->
  Forall (fun id => id < length w) token_ids ->
  Forall (fun r => length r = embed_dim) w ->
  (forall j, V <= j < V + K ->
             exists old, nth_error target j = Some old /\ length old = embed_dim) ->
  output_dir <> EmptyString ->
  makedirs_error output_dir = None ->
  create_error (final_checkpoint_file output_dir model_name save_model_as) = None ->
  (is_safetensors (final_checkpoint_file output_dir model_name save_model_as) = false ->
   torch_archive_name (final_checkpoint_file output_dir model_name save_model_as)
   <> EmptyString) ->
  exists fs' ckpt_file target',
    save_trained_model convert create_error makedirs_error table_dtype embed_dim
                       fs output_dir model_name save_model_as w token_ids save_dtype
    = Ok (fs', ckpt_file) /\
    ckpt_file = final_checkpoint_file output_dir model_name save_model_as /\
    load_initial_weights convert table_dtype fs' (Some ckpt_file) target (seq V K)
    = Some (Ok target') /\
    length target' = length target /\
    (forall j, j < V \/ V + K <= j -> nth_error target' j = nth_error target j) /\
    (forall i, i < K ->
               nth_error target' (V + i)
               = option_map (there_and_back convert table_dtype save_dtype)
                            (nth_error w (nth i token_ids 0))).
Proof.
  intros HK Hids Hwidth Htarget Hdir Hmk Hcreate Hname.
  destruct (gather_rows_ok w token_ids Hids) as [rows Hrows].
  destruct (gather_rows_nth w token_ids rows Hrows) as [Hlen Hnth].
  assert (Hrw : Forall (fun r => length r = embed_dim) rows).
  { apply Forall_forall. intros r Hr. rewrite Forall_forall in Hwidth.
    apply Hwidth. exact (gather_rows_In w token_ids rows Hrows r Hr). }
  unfold save_trained_model, updated_embs, os_makedirs. rewrite Hrows. cbn [bind].
  replace (String.eqb output_dir EmptyString) with false
    by (symmetry; now apply String.eqb_neq).
  rewrite Hmk. cbn [bind].
  set (embs := mkTensor table_dtype [length token_ids; embed_dim] (concat rows)).
  fold (final_checkpoint_file output_dir model_name save_model_as).
  set (ckpt_file := final_checkpoint_file output_dir model_name save_model_as) in *.
  destruct (writer_accepts_fresh ckpt_file embs save_dtype Hcreate Hname) as [Hacc Hback].
  destruct (save_weights_stores convert create_error fs ckpt_file
              (mkObject embs Contiguous false) save_dtype Hacc Hback)
    as [fs' [c [Hsave [Hc Hst]]]].
  rewrite Hsave. cbn [bind obj_tensor] in *.
  (* the tensor in the file, as rows *)
  set (stored_rows :=
         match save_dtype with
         | None => rows
         | Some d => if dtype_eqb table_dtype d then rows
                     else map (map (convert table_dtype d)) rows
         end).
  assert (Hdata : t_data (stored_value convert embs save_dtype) = concat stored_rows).
  { unfold stored_value, stored_rows, tensor_to. destruct save_dtype as [d|]; [|reflexivity].
    cbn [t_dtype embs]. destruct (dtype_eqb table_dtype d); [reflexivity|].
    cbn [t_data embs]. now rewrite concat_map. }
  assert (Hsw : Forall (fun r => length r = embed_dim) stored_rows).
  { unfold stored_rows. destruct save_dtype as [d|]; [|exact Hrw].
    destruct (dtype_eqb table_dtype d); [exact Hrw|].
    apply Forall_forall. intros r Hr. apply in_map_iff in Hr.
    destruct Hr as [r0 [<- Hr0]]. rewrite length_map.
    rewrite Forall_forall in Hrw. now apply Hrw. }
  assert (Hslen : length stored_rows = K).
  { assert (HrK : length rows = K) by (transitivity (length token_ids); assumption).
    unfold stored_rows. destruct save_dtype as [d|]; [|exact HrK].
    destruct (dtype_eqb table_dtype d); [exact HrK | rewrite length_map; exact HrK]. }
  assert (Hshape : t_shape (stored_value convert embs save_dtype) = [K; embed_dim]).
  { unfold stored_value. destruct save_dtype as [d|].
    - rewrite tensor_to_shape. cbn. now rewrite HK.
    - cbn. now rewrite HK. }
  destruct (load_stored_rows fs' ckpt_file c (stored_value convert embs save_dtype)
              K embed_dim V target Hc Hst Hshape)
    as [target' [Hload [Hlen' [Hout Hnew]]]].
  { rewrite Hdata, (concat_uniform_length embed_dim stored_rows Hsw). now rewrite Hslen. }
  { exact Htarget. }
  exists fs', ckpt_file, target'.
  split; [reflexivity|]. split; [reflexivity|].
  split; [exact Hload|]. split; [exact Hlen'|].
  split; [exact Hout|].
  intros i Hi. rewrite (Hnew i Hi), Hdata.
  rewrite <- (Hnth i) by lia.
  destruct (nth_error rows i) as [r|] eqn:Hr;
    [|apply nth_error_None in Hr; lia].
  cbn [option_map]. f_equal.
  unfold there_and_back, stored_value, stored_rows, convert_row, tensor_to in *.
  destruct save_dtype as [d|].
  - cbn [t_dtype embs] in *. destruct (dtype_eqb table_dtype d) eqn:Hd.
    + cbn [t_dtype embs]. rewrite dtype_eqb_refl.
      exact (concat_slice embed_dim rows i r Hrw Hr).
    + cbn [t_dtype]. rewrite dtype_eqb_sym, Hd. f_equal.
      apply (concat_slice embed_dim (map (map (convert table_dtype d)) rows) i);
        [exact Hsw|].
      exact (map_nth_error (map (convert table_dtype d)) i rows Hr).
  - cbn [t_dtype embs]. rewrite dtype_eqb_refl.
    exact (concat_slice embed_dim rows i r Hrw Hr).
Qed.

End CheckpointFacts.

Lemma load_initial_weights_mismatch_witness :
  load_initial_weights sample_convert Float32 fs_two_rows (Some "emb.pt")
                       sample_wide [1; 2; 3]
  = Some (Err (AssertionError (weights_mismatch_msg 2))).
Proof.
  apply (load_initial_weights_mismatch sample_convert Float32 fs_two_rows "emb.pt"
           (PickleFile (PyDict [("emb_params", PyTensor sample_emb)]))
           sample_emb 2 3 sample_wide [1; 2; 3]).
  - reflexivity.
  - apply stores_pickle with (k := "emb_params") (rest := []); [reflexivity|].
    apply table_direct. reflexivity.
  - reflexivity.
  - cbn. lia.
Defined.

Lemma load_initial_weights_rows_witness :
  exists token_embeds',
    load_initial_weights sample_convert Float16 fs_two_rows (Some "emb.pt")
                         sample_wide (seq 2 2)
    = Some (Ok token_embeds') /\
    length token_embeds' = length sample_wide /\
    (forall j, j < 2 \/ 2 + 2 <= j ->
               nth_error token_embeds' j = nth_error sample_wide j) /\
    (forall i, i < 2 ->
               nth_error token_embeds' (2 + i)
               = Some (convert_row sample_convert Float16 (t_dtype sample_emb)
                                   (firstn 3 (skipn (i * 3) (t_data sample_emb))))).
Proof.
  apply (load_initial_weights_rows sample_convert Float16 fs_two_rows "emb.pt"
           (PickleFile (PyDict [("emb_params", PyTensor sample_emb)]))
           sample_emb 2 3 2 sample_wide).
  - reflexivity.
  - apply stores_pickle with (k := "emb_params") (rest := []); [reflexivity|].
    apply table_direct. reflexivity.
  - reflexivity.
  - reflexivity.
  - intros j Hj. exists [0; 0; 0]%Z.
    assert (Hcases : j = 2 \/ j = 3) by lia.
    destruct Hcases as [-> | ->]; split; reflexivity.
Defined.

Lemma resume_from_final_checkpoint_witness :
  exists fs' ckpt_file target',
    save_trained_model sample_convert no_error no_error Float32 3
                       empty_fs "out" "sks" "safetensors"
                       sample_trained [1; 2] (Some Float16)
    = Ok (fs', ckpt_file) /\
    ckpt_file = final_checkpoint_file "out" "sks" "safetensors" /\
    load_initial_weights sample_convert Float32 fs' (Some ckpt_file) sample_wide (seq 2 2)
    = Some (Ok target') /\
    length target' = length sample_wide /\
    (forall j, j < 2 \/ 2 + 2 <= j -> nth_error target' j = nth_error sample_wide j) /\
    (forall i, i < 2 ->
               nth_error target' (2 + i)
               = option_map (there_and_back sample_convert Float32 (Some Float16))
                            (nth_error sample_trained (nth i [1; 2] 0))).
Proof.
  apply (resume_from_final_checkpoint sample_convert no_error no_error Float32 3 empty_fs
           "out" "sks" "safetensors" sample_trained [1; 2] (Some Float16) 2 2 sample_wide).
  - reflexivity.
  - repeat constructor.
  - repeat constructor.
  - intros j Hj. exists [0; 0; 0]%Z.
    assert (Hcases : j = 2 \/ j = 3) by lia.
    destruct Hcases as [-> | ->]; split; reflexivity.
  - discriminate.
  - reflexivity.
  - reflexivity.
  - discriminate.
Defined.

(* ===================================================================== *)
(** ** Training loop: further properties *)
(* ===================================================================== *)

Section TrainingMore.

Variable update : nat -> nat -> matrix -> nat -> row -> row.
Variable sync_gradients : nat -> nat -> bool.

(** X13: the write-back of a batch iteration never touches the trainable
    rows: every row at or above the first new id is exactly what the
    optimizer step left there, and is the row of the previous iteration
    when gradients were not synchronised; the rows below come from the
    snapshot. *)
Theorem train_batch_trainable_rows (n base : nat) (orig : matrix)
        (epoch step : nat) (st st' : train_state) :
  length orig = n ->
  length (weight st) = n ->
  train_batch update sync_gradients orig (arange_lt n base) epoch step st = Ok st' ->
  (forall r, base <= r ->
             nth_error (weight st') r
             = nth_error (optimizer_step update sync_gradients epoch step (weight st)) r) /\
  (sync_gradients epoch step = false ->
   forall r, base <= r -> nth_error (weight st') r = nth_error (weight st) r) /\
  (forall r, r < base -> nth_error (weight st') r = nth_error orig r).
Proof.
  intros Ho Hw Hrun. unfold train_batch in Hrun.
  destruct (restore_frozen_rows n base
              (optimizer_step update sync_gradients epoch step (weight st)) orig)
    as [w' [Hres [_ Hnth]]];
    [now rewrite optimizer_step_length | exact Ho |].
  rewrite Hres in Hrun. cbn [bind] in Hrun. injection Hrun as <-. cbn [weight].
  assert (Hhigh : forall r, base <= r ->
                            nth_error w' r
                            = nth_error (optimizer_step update sync_gradients epoch step
                                                        (weight st)) r).
  { intros r Hr. rewrite Hnth.
    now replace (r <? base) with false by (symmetry; apply Nat.ltb_ge; exact Hr). }
  split; [exact Hhigh|]. split.
  - intros Hsync r Hr. rewrite Hhigh by exact Hr.
    unfold optimizer_step. now rewrite Hsync.
  - intros r Hr. rewrite Hnth.
    now replace (r <? base) with true by (symmetry; apply Nat.ltb_lt; exact Hr).
Qed.

Lemma sync_count_cons (epoch step : nat) (steps : list nat) :
  sync_count sync_gradients epoch (step :: steps)
  = (if sync_gradients epoch step then 1 else 0) + sync_count sync_gradients epoch steps.
Proof. unfold sync_count. cbn. now destruct (sync_gradients epoch step). Qed.

(** A batch loop that cannot reach the maximum before its last batch runs
    all its batches. *)
Lemma batch_loop_all (n base K : nat) (orig : matrix) (max_train_steps epoch : nat)
      (steps : list nat) :
  n = base + K -> length orig = n ->
  forall st,
    length (weight st) = n ->
    global_step st + sync_count sync_gradients epoch (removelast steps) < max_train_steps ->
    exists st',
      batch_loop update sync_gradients orig (arange_lt n base)
                 max_train_steps epoch steps st = Ok st' /\
      length (weight st') = n /\
      global_step st' = global_step st + sync_count sync_gradients epoch steps /\
      optimizer_updates st' = optimizer_updates st + sync_count sync_gradients epoch steps /\
      length (history st') = length (history st) + length steps.
Proof.
  intros Hn Ho. induction steps as [|step rest IH]; intros st Hw Hbound.
  - exists st. unfold sync_count. cbn. repeat split; lia.
  - destruct (train_batch_step update sync_gradients n base K orig epoch step st Hn Ho Hw)
      as [w' [Hrun [Hlen _]]].
    cbn [batch_loop]. rewrite Hrun. cbn [bind global_step].
    rewrite sync_count_cons.
    destruct rest as [|step' rest'].
    + eexists. split; [now destruct (max_train_steps <=? _)|].
      cbn [weight global_step optimizer_updates history length].
      unfold sync_count. cbn [filter length].
      destruct (sync_gradients epoch step); repeat split; lia.
    + assert (Hrl : removelast (step :: step' :: rest') = step :: removelast (step' :: rest'))
        by reflexivity.
      rewrite Hrl, sync_count_cons in Hbound.
      match goal with
      | |- context [batch_loop _ _ _ _ _ _ _ ?s] =>
          destruct (IH s) as [st' [Hrun' [Hw' [Hgs [Hou Hh]]]]]
      end.
      { exact Hlen. }
      { cbn [global_step]. destruct (sync_gradients epoch step); lia. }
      cbn [global_step optimizer_updates history] in Hgs, Hou, Hh.
      replace (max_train_steps <=? _) with false.
      * exists st'. split; [exact Hrun'|]. split; [exact Hw'|].
        cbn [length] in *.
        destruct (sync_gradients epoch step); repeat split; lia.
      * symmetry. apply Nat.leb_gt.
        destruct (sync_gradients epoch step); lia.
Qed.

(** Epochs that all synchronise [U] times, the last time on their last
    batch, and together stay within the maximum, run all their batches. *)
Lemma epoch_loop_all (n base K : nat) (orig : matrix) (max_train_steps L U : nat)
      (epochs : list nat) :
  n = base + K -> length orig = n ->
  (forall epoch, sync_count sync_gradients epoch (seq 0 L) = U) ->
  (forall epoch, sync_count sync_gradients epoch (removelast (seq 0 L)) < U) ->
  forall st,
    length (weight st) = n ->
    global_step st + length epochs * U <= max_train_steps ->
    exists st',
      epoch_loop update sync_gradients orig (arange_lt n base)
                 max_train_steps L epochs st = Ok st' /\
      length (weight st') = n /\
      global_step st' = global_step st + length epochs * U /\
      optimizer_updates st' = optimizer_updates st + length epochs * U /\
      length (history st') = length (history st) + length epochs * L.
Proof.
  intros Hn Ho HU Hlast. induction epochs as [|epoch rest IH]; intros st Hw Hbound.
  - exists st. cbn. repeat split; lia.
  - cbn [length] in Hbound.
    destruct (batch_loop_all n base K orig max_train_steps epoch (seq 0 L) Hn Ho st Hw)
      as [st1 [Hrun [Hw1 [Hgs1 [Hou1 Hh1]]]]].
    { specialize (Hlast epoch). nia. }
    rewrite HU in Hgs1, Hou1. rewrite length_seq in Hh1.
    destruct (IH st1 Hw1) as [st' [Hrun' [Hw' [Hgs [Hou Hh]]]]]; [nia|].
    cbn [epoch_loop]. rewrite Hrun. cbn [bind].
    exists st'. split; [exact Hrun'|]. split; [exact Hw'|].
    cbn [length]. repeat split; nia.
Qed.

End TrainingMore.

Lemma accumulate_sync_before_last (g L epoch : nat) :
  g >= 1 -> L >= 1 ->
  sync_count (accumulate_sync g L) epoch (removelast (seq 0 L)) + 1 = (L + g - 1) / g.
Proof.
  intros Hg HL. destruct L as [|L]; [lia|].
  rewrite seq_S, removelast_last. unfold sync_count.
  rewrite (filter_ext_in (accumulate_sync g (S L) epoch)
                         (fun i => (i + 1) mod g =? 0)).
  - rewrite count_multiples by exact Hg.
    replace (S L + g - 1) with (L + 1 * g) by lia.
    rewrite Nat.div_add by lia. reflexivity.
  - intros i Hi. apply in_seq in Hi. unfold accumulate_sync.
    replace (i + 1 =? S L) with false by (symmetry; apply Nat.eqb_neq; lia).
    apply orb_false_r.
Qed.

(** X14: when [max_train_epochs = E] is given (one process), the step
    budget is [E * ceil(L / g)] and training then runs exactly [E] epochs,
    each over all its [L] batches: [E * L] batch iterations and
    [E * ceil(L / g)] parameter updates. *)
Theorem max_train_epochs_full_epochs
        (update : nat -> nat -> matrix -> nat -> row -> row)
        (base_id K : nat) (emb : matrix)
        (num_batches gradient_accumulation_steps max_train_epochs max_train_steps : nat) :
  K >= 1 ->
  length emb = base_id + K ->
  num_batches >= 1 ->
  gradient_accumulation_steps >= 1 ->
  exists steps st,
    override_max_train_steps (Some max_train_epochs) num_batches 1
                             gradient_accumulation_steps max_train_steps = Ok steps /\
    steps = max_train_epochs
            * ((num_batches + gradient_accumulation_steps - 1) / gradient_accumulation_steps) /\
    train_loop update (accumulate_sync gradient_accumulation_steps num_batches)
               (base_id + K) (seq base_id K) emb
               num_batches gradient_accumulation_steps steps = Ok st /\
    global_step st = steps /\
    optimizer_updates st = steps /\
    length (history st) = max_train_epochs * num_batches.
Proof.
  intros HK Hlen HL Hg.
  set (U := (num_batches + gradient_accumulation_steps - 1) / gradient_accumulation_steps).
  destruct (ceil_div_bounds num_batches gradient_accumulation_steps Hg HL) as [HU _].
  fold U in HU.
  assert (Hover : override_max_train_steps (Some max_train_epochs) num_batches 1
                    gradient_accumulation_steps max_train_steps
                  = Ok (max_train_epochs * U)).
  { unfold override_max_train_steps, ceil_div. cbn [Nat.eqb].
    rewrite Nat.mul_1_l.
    replace (gradient_accumulation_steps =? 0) with false
      by (symmetry; apply Nat.eqb_neq; lia).
    reflexivity. }
  assert (HE : (max_train_epochs * U + U - 1) / U = max_train_epochs).
  { replace (max_train_epochs * U + U - 1) with ((U - 1) + max_train_epochs * U) by lia.
    rewrite Nat.div_add by lia. rewrite Nat.div_small by lia. reflexivity. }
  destruct (epoch_loop_all update
              (accumulate_sync gradient_accumulation_steps num_batches)
              (base_id + K) base_id K emb (max_train_epochs * U) num_batches U
              (seq 0 max_train_epochs) eq_refl Hlen
              (fun epoch => accumulate_sync_count _ _ epoch Hg HL))
    with (st := mkState emb 0 0 [])
    as [st [Hrun [_ [Hgs [Hou Hh]]]]].
  { intros epoch.
    pose proof (accumulate_sync_before_last gradient_accumulation_steps num_batches
                  epoch Hg HL) as Hb. fold U in Hb. lia. }
  { exact Hlen. }
  { rewrite length_seq. cbn. lia. }
  rewrite length_seq in Hgs, Hou, Hh. cbn in Hgs, Hou, Hh.
  exists (max_train_epochs * U), st.
  split; [exact Hover|]. split; [reflexivity|]. split.
  - unfold train_loop. destruct K as [|K']; [lia|]. cbn [seq].
    unfold ceil_div.
    replace (gradient_accumulation_steps =? 0) with false
      by (symmetry; apply Nat.eqb_neq; lia).
    cbn [bind]. fold U.
    replace (U =? 0) with false by (symmetry; apply Nat.eqb_neq; lia).
    cbn [bind]. rewrite HE. exact Hrun.
  - repeat split; assumption.
Qed.

Lemma train_batch_trainable_rows_witness :
  (forall r, 3 <= r ->
             nth_error [[10; 11]; [20; 21]; [30; 31]; [7; 4]; [9; 5]; [11; 6]]%Z r
             = nth_error (optimizer_step sample_update (accumulate_sync 1 10) 0 0
                                         sample_resized) r) /\
  (accumulate_sync 1 10 0 0 = false ->
   forall r, 3 <= r ->
             nth_error [[10; 11]; [20; 21]; [30; 31]; [7; 4]; [9; 5]; [11; 6]]%Z r
             = nth_error sample_resized r) /\
  (forall r, r < 3 ->
             nth_error [[10; 11]; [20; 21]; [30; 31]; [7; 4]; [9; 5]; [11; 6]]%Z r
             = nth_error sample_resized r).
Proof.
  apply (train_batch_trainable_rows sample_update (accumulate_sync 1 10) 6 3
           sample_resized 0 0 (mkState sample_resized 0 0 [])
           (mkState [[10; 11]; [20; 21]; [30; 31]; [7; 4]; [9; 5]; [11; 6]]%Z 1 1
                    [(1, [[10; 11]; [20; 21]; [30; 31]; [7; 4]; [9; 5]; [11; 6]]%Z)])).
  - reflexivity.
  - reflexivity.
  - reflexivity.
Defined.

Lemma max_train_epochs_full_epochs_witness :
  exists steps st,
    override_max_train_steps (Some 2) 10 1 4 1600 = Ok steps /\
    steps = 2 * ((10 + 4 - 1) / 4) /\
    train_loop sample_update (accumulate_sync 4 10) (3 + 3) (seq 3 3) sample_resized
               10 4 steps = Ok st /\
    global_step st = steps /\
    optimizer_updates st = steps /\
    length (history st) = 2 * 10.
Proof.
  apply (max_train_epochs_full_epochs sample_update 3 3 sample_resized 10 4 2 1600).
  - lia.
  - reflexivity.
  - lia.
  - lia.
Defined.

(* ===================================================================== *)
(** ** Path of the final checkpoint and choice of the file format *)
(* ===================================================================== *)

Lemma string_app_assoc (a b c : string) :
  String.append (String.append a b) c = String.append a (String.append b c).
Proof. induction a as [|x a IH]; cbn; [reflexivity | now rewrite IH]. Qed.

Lemma string_app_length (a b : string) :
  String.length (String.append a b) = String.length a + String.length b.
Proof. induction a as [|x a IH]; cbn; [reflexivity | now rewrite IH]. Qed.

Lemma rfind_from_app (c : ascii) (a b : string) :
  forall i last,
    Path.rfind_from c (String.append a b) i last
    = Path.rfind_from c b (i + Z.of_nat (String.length a))%Z (Path.rfind_from c a i last).
Proof.
  induction a as [|x a IH]; intros i last; cbn [String.append Path.rfind_from String.length].
  - now rewrite Z.add_0_r.
  - rewrite IH. f_equal. lia.
Qed.

Lemma rfind_from_absent (c : ascii) (s : string) :
  has_char c s = false ->
  forall i last, Path.rfind_from c s i last = last.
Proof.
  induction s as [|x s IH]; intros H i last; cbn in *; [reflexivity|].
  apply orb_false_iff in H. destruct H as [Hx Hs].
  rewrite Hx. now apply IH.
Qed.

(** Index of the last occurrence, when the text after it has none. *)
Lemma rfind_last (c : ascii) (a b : string) :
  has_char c b = false ->
  Path.rfind c (String.append a (String c b)) = Z.of_nat (String.length a).
Proof.
  intros Hb. unfold Path.rfind. rewrite rfind_from_app.
  cbn [Path.rfind_from]. rewrite Ascii.eqb_refl.
  now rewrite rfind_from_absent.
Qed.

Lemma has_char_app (c : ascii) (a b : string) :
  has_char c (String.append a b) = has_char c a || has_char c b.
Proof. induction a as [|x a IH]; cbn; [reflexivity | now rewrite IH, orb_assoc]. Qed.

Lemma get_app_length (a : string) (x : ascii) (b : string) :
  String.get (String.length a) (String.append a (String x b)) = Some x.
Proof. induction a as [|y a IH]; cbn; [reflexivity | exact IH]. Qed.

Lemma has_name_before_dot_app (name rest : string) :
  forall pre,
    Path.has_name_before_dot (String.append pre (String.append name (String "."%char rest)))
                             (String.length pre) (String.length name)
    = has_other_char "."%char name.
Proof.
  induction name as [|x name IH]; intros pre; [reflexivity|].
  cbn [String.length Path.has_name_before_dot has_other_char String.append].
  rewrite get_app_length.
  destruct (Ascii.eqb x "."%char) eqn:Hx; [|reflexivity].
  cbn [negb orb].
  specialize (IH (String.append pre (String x EmptyString))).
  rewrite string_app_assoc, string_app_length in IH. cbn in IH.
  replace (String.length pre + 1) with (S (String.length pre)) in IH by lia.
  exact IH.
Qed.

Lemma substring_app_r (a b : string) :
  String.substring (String.length a) (String.length b) (String.append a b) = b.
Proof.
  induction a as [|x a IH]; cbn.
  - induction b as [|y b IHb]; cbn; [reflexivity | now rewrite IHb].
  - exact IH.
Qed.

Lemma ends_with_slash (a : string) :
  String.eqb (String.substring (String.length a - 1) 1 a) "/" = true ->
  exists a', a = String.append a' "/".
Proof.
  induction a as [|x a IH]; intros H; [discriminate|].
  destruct a as [|y a].
  - cbn in H. destruct (Ascii.eqb_spec x "/"%char) as [-> | Hne]; [|discriminate].
    now exists EmptyString.
  - cbn [String.length Nat.sub] in H.
    replace (S (String.length a) - 0) with (S (String.length a)) in H by lia.
    cbn [String.substring] in H.
    destruct IH as [a' Ha'].
    { cbn [String.length]. replace (S (String.length a) - 1) with (String.length a) by lia.
      exact H. }
    exists (String x a'). cbn. now rewrite Ha'.
Qed.

(** The directory part that [path_join] puts in front of a relative name. *)
Lemma path_join_prefix (a b : string) :
  String.prefix "/" b = false ->
  exists pre,
    path_join a b = String.append pre b /\
    (pre = EmptyString \/ exists pre', pre = String.append pre' "/").
Proof.
  intros Hb. unfold path_join. rewrite Hb.
  destruct (String.eqb a "") eqn:Ha.
  - apply String.eqb_eq in Ha. subst a. exists EmptyString. split; [reflexivity | now left].
  - destruct (String.eqb (String.substring (String.length a - 1) 1 a) "/") eqn:Hs.
    + exists a. split; [reflexivity|]. right. now apply ends_with_slash.
    + exists (String.append a "/"). split; [now rewrite string_app_assoc|].
      right. now exists a.
Qed.

Lemma rfind_slash_prefix (pre rest : string) :
  (pre = EmptyString \/ exists pre', pre = String.append pre' "/") ->
  has_char "/"%char rest = false ->
  (Path.rfind "/"%char (String.append pre rest) + 1)%Z = Z.of_nat (String.length pre).
Proof.
  intros [-> | [pre' ->]] Hrest.
  - unfold Path.rfind. cbn [String.append]. now rewrite rfind_from_absent.
  - rewrite string_app_assoc. cbn [String.append].
    rewrite rfind_last by exact Hrest.
    rewrite string_app_length. cbn. lia.
Qed.

(** The extension that [os.path.splitext] finds on the checkpoint path. *)
Lemma splitext_checkpoint (output_dir model_name ext : string) :
  has_char "/"%char model_name = false ->
  has_char "/"%char ext = false ->
  has_char "."%char ext = false ->
  snd (Path.splitext (path_join output_dir
                        (String.append model_name (String.append "." ext))))
  = if has_other_char "."%char model_name then String.append "." ext else EmptyString.
Proof.
  intros Hname Hext_slash Hext_dot.
  destruct (path_join_prefix output_dir (String.append model_name (String.append "." ext)))
    as [pre [Hjoin Hpre]].
  { destruct model_name as [|x name]; [reflexivity|].
    cbn in Hname |- *. apply orb_false_iff in Hname. destruct Hname as [Hx _].
    destruct (Ascii.eqb_spec x "/"%char) as [-> | Hne]; [discriminate|].
    destruct x as [[] [] [] [] [] [] [] []]; try reflexivity. now elim Hne. }
  rewrite Hjoin. cbn [String.append]. unfold Path.splitext.
  assert (Hsep : (Path.rfind "/"%char
                    (String.append pre (String.append model_name (String "."%char ext))) + 1)%Z
                 = Z.of_nat (String.length pre)).
  { apply rfind_slash_prefix; [exact Hpre|].
    rewrite has_char_app, Hname. cbn. exact Hext_slash. }
  assert (Hdot : Path.rfind "."%char
                   (String.append pre (String.append model_name (String "."%char ext)))
                 = Z.of_nat (String.length pre + String.length model_name)).
  { rewrite <- string_app_assoc, rfind_last by exact Hext_dot.
    now rewrite string_app_length. }
  rewrite Hdot, Hsep.
  replace (Path.rfind "/"%char
             (String.append pre (String.append model_name (String "."%char ext)))
           <? Z.of_nat (String.length pre + String.length model_name))%Z
    with true by (symmetry; apply Z.ltb_lt; lia).
  rewrite Nat2Z.id.
  replace (Z.to_nat (Z.of_nat (String.length pre + String.length model_name)
                     - Z.of_nat (String.length pre)))
    with (String.length model_name) by lia.
  rewrite has_name_before_dot_app.
  destruct (has_other_char "."%char model_name); [|reflexivity].
  cbn [snd]. rewrite Nat2Z.id.
  rewrite <- string_app_assoc.
  rewrite !string_app_length.
  replace (String.length pre + String.length model_name
           + String.length (String "."%char ext)
           - (String.length pre + String.length model_name))
    with (String.length (String "."%char ext)) by lia.
  rewrite <- string_app_length. apply substring_app_r.
Qed.

Lemma rfind_from_lt (c : ascii) (s : string) :
  forall i last,
    (last < i)%Z ->
    (Path.rfind_from c s i last < i + Z.of_nat (String.length s))%Z.
Proof.
  induction s as [|a s IH]; intros i last Hlt; cbn [Path.rfind_from String.length].
  - lia.
  - specialize (IH (i + 1)%Z (if Ascii.eqb a c then i else last)).
    assert (Hnext : ((if Ascii.eqb a c then i else last) < i + 1)%Z)
      by (destruct (Ascii.eqb a c); lia).
    specialize (IH Hnext). lia.
Qed.

Lemma rfind_lt (c : ascii) (s : string) :
  (Path.rfind c s < Z.of_nat (String.length s))%Z.
Proof. unfold Path.rfind. pose proof (rfind_from_lt c s 0 (-1)%Z). lia. Qed.

Lemma rfind_app_absent (c : ascii) (a b : string) :
  has_char c b = false ->
  Path.rfind c (String.append a b) = Path.rfind c a.
Proof.
  intros Hb. unfold Path.rfind. rewrite rfind_from_app. now apply rfind_from_absent.
Qed.

Lemma substring_app_mid (a b c : string) :
  String.substring (String.length a) (String.length b)
                   (String.append a (String.append b c)) = b.
Proof.
  induction a as [|x a IH]; cbn; [|exact IH].
  induction b as [|y b IHb]; cbn.
  - now destruct c.
  - now rewrite IHb.
Qed.

(** The archive name that [torch.save] derives from the checkpoint path is
    the model name. *)
Lemma torch_archive_name_checkpoint (output_dir model_name ext : string) :
  has_char "/"%char model_name = false ->
  has_char "\"%char model_name = false ->
  has_char "/"%char ext = false ->
  has_char "\"%char ext = false ->
  has_char "."%char ext = false ->
  torch_archive_name (final_checkpoint_file output_dir model_name ext) = model_name.
Proof.
  intros Hname Hname_b Hext_slash Hext_b Hext_dot. unfold final_checkpoint_file.
  destruct (path_join_prefix output_dir (String.append model_name (String.append "." ext)))
    as [pre [Hjoin Hpre]].
  { destruct model_name as [|x name]; [reflexivity|].
    cbn in Hname |- *. apply orb_false_iff in Hname. destruct Hname as [Hx _].
    destruct (Ascii.eqb_spec x "/"%char) as [-> | Hne]; [discriminate|].
    destruct x as [[] [] [] [] [] [] [] []]; try reflexivity. now elim Hne. }
  rewrite Hjoin. cbn [String.append]. unfold torch_archive_name.
  assert (Hsep : (Path.rfind "/"%char
                    (String.append pre (String.append model_name (String "."%char ext))) + 1)%Z
                 = Z.of_nat (String.length pre)).
  { apply rfind_slash_prefix; [exact Hpre|].
    rewrite has_char_app, Hname. cbn. exact Hext_slash. }
  assert (Hback : (Path.rfind "\"%char
                     (String.append pre (String.append model_name (String "."%char ext)))
                   < Z.of_nat (String.length pre))%Z).
  { rewrite rfind_app_absent; [apply rfind_lt|].
    rewrite has_char_app, Hname_b. cbn. exact Hext_b. }
  assert (Hdot : Path.rfind "."%char
                   (String.append pre (String.append model_name (String "."%char ext)))
                 = Z.of_nat (String.length pre + String.length model_name)).
  { rewrite <- string_app_assoc, rfind_last by exact Hext_dot.
    now rewrite string_app_length. }
  replace (Z.to_nat
             (Z.max (Path.rfind "/"%char
                       (String.append pre (String.append model_name (String "."%char ext))))
                    (Path.rfind "\"%char
                       (String.append pre (String.append model_name (String "."%char ext))))
              + 1))
    with (String.length pre) by lia.
  rewrite Hdot.
  replace (String.length
             (String.append pre (String.append model_name (String "."%char ext)))
           <=? String.length pre) with false
    by (symmetry; apply Nat.leb_gt; rewrite !string_app_length; cbn; lia).
  replace (Z.of_nat (String.length pre)
           <=? Z.of_nat (String.length pre + String.length model_name))%Z
    with true by (symmetry; apply Z.leb_le; lia).
  rewrite Nat2Z.id.
  replace (String.length pre + String.length model_name - String.length pre)
    with (String.length model_name) by lia.
  apply substring_app_mid.
Qed.

Lemma has_other_char_nonempty (c : ascii) (s : string) :
  has_other_char c s = true -> s <> EmptyString.
Proof. intros H ->. discriminate H. Qed.

Section FinalCheckpoint.

Variable convert : dtype -> dtype -> Z -> Z.
Variable create_error : string -> option pyerror.
Variable makedirs_error : string -> option pyerror.
Variable table_dtype : dtype.
Variable embed_dim : nat.

(** X15: the format of the final checkpoint. For a model name without
    [/] and [\] that has a character other than a dot, and an extension
    without [/], [\] and [.], when the output directory is named and can
    be created and the checkpoint file can be created, the end of [train]
    writes the file [output_dir/model_name.save_model_as]: a safetensors
    archive exactly when the extension is [safetensors], a pickled dict
    otherwise. Either way it holds the extracted rows under the single key
    [emb_params]. *)
Theorem final_checkpoint_format (fs : filesystem)
        (output_dir model_name save_model_as : string)
        (w : matrix) (token_ids : list nat) (save_dtype : option dtype) (embs : tensor) :
  has_char "/"%char model_name = false ->
  has_char "\"%char model_name = false ->
  has_other_char "."%char model_name = true ->
  has_char "/"%char save_model_as = false ->
  has_char "\"%char save_model_as = false ->
  has_char "."%char save_model_as = false ->
  output_dir <> EmptyString ->
  makedirs_error output_dir = None ->
  create_error (final_checkpoint_file output_dir model_name save_model_as) = None ->
  updated_embs table_dtype embed_dim w token_ids = Ok embs ->
  exists fs',
    save_trained_model convert create_error makedirs_error table_dtype embed_dim
                       fs output_dir model_name save_model_as w token_ids save_dtype
    = Ok (fs', final_checkpoint_file output_dir model_name save_model_as) /\
    fs' (final_checkpoint_file output_dir model_name save_model_as)
    = Some (if String.eqb save_model_as "safetensors"
            then SafetensorsArchive [("emb_params", stored_value convert embs save_dtype)]
            else PickleFile (PyDict [("emb_params",
                                      PyTensor (stored_value convert embs save_dtype))])).
Proof.
  intros Hname Hname_b Hother Hslash Hback Hdot Hdir Hmk Hcreate Hembs.
  unfold save_trained_model, os_makedirs. rewrite Hembs. cbn [bind].
  replace (String.eqb output_dir EmptyString) with false
    by (symmetry; now apply String.eqb_neq).
  rewrite Hmk. cbn [bind].
  fold (final_checkpoint_file output_dir model_name save_model_as).
  set (ckpt_file := final_checkpoint_file output_dir model_name save_model_as) in *.
  assert (Harchive : torch_archive_name ckpt_file <> EmptyString).
  { unfold ckpt_file.
    rewrite (torch_archive_name_checkpoint output_dir model_name save_model_as
               Hname Hname_b Hslash Hback Hdot).
    exact (has_other_char_nonempty _ _ Hother). }
  destruct (writer_accepts_fresh convert create_error ckpt_file embs save_dtype
              Hcreate (fun _ => Harchive)) as [Hacc _].
  rewrite (save_weights_written convert create_error fs ckpt_file
             (mkObject embs Contiguous false) save_dtype Hacc).
  cbn [bind]. eexists. split; [reflexivity|].
  rewrite write_file_same. f_equal.
  assert (Hfmt : is_safetensors ckpt_file = String.eqb save_model_as "safetensors").
  { unfold is_safetensors, ckpt_file, final_checkpoint_file.
    rewrite (splitext_checkpoint output_dir model_name save_model_as Hname Hslash Hdot).
    now rewrite Hother. }
  rewrite Hfmt.
  destruct (String.eqb save_model_as "safetensors"); destruct save_dtype; reflexivity.
Qed.

End FinalCheckpoint.

Lemma final_checkpoint_format_witness :
  exists fs',
    save_trained_model sample_convert no_error no_error Float32 3
                       empty_fs "out/run1" "sks.v2" "safetensors"
                       sample_trained [1; 2] None
    = Ok (fs', final_checkpoint_file "out/run1" "sks.v2" "safetensors") /\
    fs' (final_checkpoint_file "out/run1" "sks.v2" "safetensors")
    = Some (if String.eqb "safetensors" "safetensors"
            then SafetensorsArchive
                   [("emb_params",
                     stored_value sample_convert
                                  (mkTensor Float32 [2; 3] [4; 5; 6; 7; 8; 9]%Z) None)]
            else PickleFile
                   (PyDict [("emb_params",
                             PyTensor (stored_value sample_convert
                                         (mkTensor Float32 [2; 3] [4; 5; 6; 7; 8; 9]%Z)
                                         None))])).
Proof.
  apply (final_checkpoint_format sample_convert no_error no_error Float32 3 empty_fs
           "out/run1" "sks.v2" "safetensors" sample_trained [1; 2] None
           (mkTensor Float32 [2; 3] [4; 5; 6; 7; 8; 9]%Z));
    (reflexivity || discriminate).
Defined.

(* ===================================================================== *)
(** ** Caption templates *)
(* ===================================================================== *)

Lemma has_brace_cons (c : ascii) (s : string) :
  has_brace (String c s) = false ->
  Ascii.eqb c "{"%char = false /\ Ascii.eqb c "}"%char = false /\ has_brace s = false.
Proof.
  unfold has_brace. cbn. intros H.
  apply orb_false_iff in H. destruct H as [H1 H2].
  apply orb_false_iff in H1. apply orb_false_iff in H2.
  destruct H1 as [Ho Hos], H2 as [Hc Hcs].
  repeat split; try assumption. now rewrite Hos, Hcs.
Qed.

(** Formatting a template that is brace-free text followed by one field. *)
Lemma format_text_field (text arg : string) :
  has_brace text = false ->
  format (String.append text "{}") arg = Some (Ok (String.append text arg)).
Proof.
  unfold format. induction text as [|c text IH]; intros H.
  - cbn. now rewrite append_empty_r.
  - apply has_brace_cons in H. destruct H as [Ho [Hc Hrest]].
    cbn [String.append format_from]. rewrite Ho, Hc, (IH Hrest). reflexivity.
Qed.

Lemma format_all_templates (templates : list string) (replace_to : string) :
  forallb well_formed_template templates = true ->
  format_all templates replace_to
  = Some (Ok (map (fun tmpl => String.append (template_text tmpl) replace_to) templates)).
Proof.
  induction templates as [|tmpl rest IH]; intros H; [reflexivity|].
  cbn [forallb] in H. apply andb_true_iff in H. destruct H as [Hwf Hrest].
  unfold well_formed_template in Hwf. apply andb_true_iff in Hwf.
  destruct Hwf as [Heq Hnb]. apply String.eqb_eq in Heq. apply negb_true_iff in Hnb.
  cbn [format_all map]. rewrite Heq at 1.
  rewrite (format_text_field _ replace_to Hnb), (IH Hrest). reflexivity.
Qed.

(** X16: in template mode the captions handed to the dataset are the
    templates, in order, with their field replaced by the generated token
    strings joined by single spaces: 27 captions for the object templates,
    which take precedence when both flags are set, 19 for the style
    templates. They are registered under the empty caption, and prompts get
    a replacement only when more than one vector is used. *)
Theorem template_captions (use_object_template use_style_template : bool)
        (token_string : string) (K : nat) :
  use_object_template || use_style_template = true ->
  exists captions,
    caption_setup use_object_template use_style_template token_string K
    = Some (Ok (mkPlan (Some (EmptyString, ReplaceByCaptions captions))
                       (if 1 <? K
                        then Some (token_string, join " " (token_strings token_string K))
                        else None))) /\
    captions
    = map (fun tmpl => String.append (template_text tmpl)
                                     (join " " (token_strings token_string K)))
          (if use_object_template then imagenet_templates_small
           else imagenet_style_templates_small) /\
    length captions = (if use_object_template then 27 else 19).
Proof.
  intros Huse. unfold caption_setup. rewrite Huse.
  destruct use_object_template.
  - rewrite format_all_templates by (vm_compute; reflexivity).
    eexists. split; [reflexivity|]. split; [reflexivity|].
    now rewrite length_map.
  - rewrite format_all_templates by (vm_compute; reflexivity).
    eexists. split; [reflexivity|]. split; [reflexivity|].
    now rewrite length_map.
Qed.

Lemma template_captions_witness :
  exists captions,
    caption_setup false true "sks" 2
    = Some (Ok (mkPlan (Some (EmptyString, ReplaceByCaptions captions))
                       (if 1 <? 2
                        then Some ("sks", join " " (token_strings "sks" 2))
                        else None))) /\
    captions
    = map (fun tmpl => String.append (template_text tmpl)
                                     (join " " (token_strings "sks" 2)))
          (if false then imagenet_templates_small
           else imagenet_style_templates_small) /\
    length captions = (if false then 27 else 19).
Proof.
  apply (template_captions false true "sks" 2). reflexivity.
Defined.

(* ===================================================================== *)
(** ** From registration to the end of training *)
(* ===================================================================== *)

Lemma load_initial_weights_rank1_witness :
  (exists token_embeds',
      load_initial_weights sample_convert Float32 fs_rank1_pt (Some "vec.pt") sample_wide [2]
      = Some (Ok token_embeds') /\
      nth_error token_embeds' 2
      = Some (convert_row sample_convert Float32 (t_dtype sample_vec) (t_data sample_vec)) /\
      forall j, j <> 2 -> nth_error token_embeds' j = nth_error sample_wide j) /\
  load_initial_weights sample_convert Float32 fs_rank1_pt (Some "vec.pt") sample_wide [2; 3]
  = Some (Err (AssertionError (weights_mismatch_msg 1))).
Proof.
  apply (load_initial_weights_rank1 sample_convert Float32 fs_rank1_pt "vec.pt"
           (PickleFile (PyDict [("emb_params", PyTensor sample_vec)]))
           sample_vec 3 2 sample_wide [0; 0; 0]%Z [2; 3]).
  - reflexivity.
  - apply stores_pickle with (k := "emb_params") (rest := []); [reflexivity|].
    apply table_direct. reflexivity.
  - reflexivity.
  - reflexivity.
  - reflexivity.
  - reflexivity.
  - cbn. lia.
Defined.

Section Pipeline.

Variable fresh_row : nat -> row.
Variable convert : dtype -> dtype -> Z -> Z.
Variable table_dtype : dtype.
Variable update : nat -> nat -> matrix -> nat -> row -> row.
Variable sync_gradients : nat -> nat -> bool.

(** X18: when both an initializer word and a weight file are given, the
    weight file wins: after the initialisation loop and the loading step,
    each new row holds the row of the checkpoint tensor, whatever the
    initializer ids were, and the rows of the base vocabulary are those of
    the table before both steps. *)
Theorem weights_override_init_word (fs : filesystem) (file : string)
        (c : file_content) (t : tensor) (emb : matrix) (init_token_ids : list nat)
        (V K D : nat) :
  length init_token_ids >= 1 ->
  Forall (fun id => id < V) init_token_ids ->
  length emb = V + K ->
  Forall (fun r => length r = D) emb ->
  fs file = Some c ->
  stores_tensor file c t ->
  t_shape t = [K; D] ->
  length (t_data t) = K * D ->
  exists emb1 emb2,
    init_embeddings emb (Some init_token_ids) (seq V K) = Ok emb1 /\
    load_initial_weights convert table_dtype fs (Some file) emb1 (seq V K)
    = Some (Ok emb2) /\
    (forall i, i < K ->
               nth_error emb2 (V + i)
               = Some (convert_row convert table_dtype (t_dtype t)
                                   (firstn D (skipn (i * D) (t_data t))))) /\
    (forall j, j < V -> nth_error emb2 j = nth_error emb j).
Proof.
  intros HM Hinit Hlen Hwidth Hfile Hst Hshape Hdata. unfold init_embeddings.
  destruct (init_rows_seq init_token_ids K V 0 emb HM Hinit)
    as [emb1 [Hrun [Hlen1 [Hout Hnew]]]]; [lia|].
  destruct (load_stored_rows convert table_dtype fs file c t K D V emb1
              Hfile Hst Hshape Hdata)
    as [emb2 [Hload [_ [Hout2 Hnew2]]]].
  { intros j Hj. replace j with (V + (j - V)) by lia. rewrite Hnew by lia.
    assert (Hb : (0 + (j - V)) mod length init_token_ids < length init_token_ids)
      by (apply Nat.mod_upper_bound; lia).
    rewrite Forall_forall in Hinit.
    pose proof (Hinit _ (nth_In init_token_ids 0 Hb)) as Hid. cbn beta in Hid.
    destruct (nth_error emb (nth ((0 + (j - V)) mod length init_token_ids)
                                 init_token_ids 0)) as [r|] eqn:Hr;
      [|apply nth_error_None in Hr; lia].
    exists r. split; [reflexivity|].
    rewrite Forall_forall in Hwidth. apply Hwidth. eapply nth_error_In, Hr. }
  exists emb1, emb2. split; [exact Hrun|]. split; [exact Hload|].
  split; [exact Hnew2|].
  intros j Hj. rewrite Hout2 by lia. apply Hout. lia.
Qed.

(** X19: from registration to the end of training, the rows of the base
    vocabulary never change. If registration of [K >= 1] strings on a
    table with one row per token succeeds, then after the optional
    initialisation from a word, the optional loading of a weight file and
    any run of the training loop, the live table has [V + K] rows and its
    first [V] rows are those of the table before registration, as they were
    at the end of every batch iteration. *)
Theorem base_vocabulary_rows_untouched
        (tk tk' : tokenizer) (emb emb1 emb2 emb3 : matrix)
        (token_string : string) (K : nat) (token_ids : list nat)
        (init_token_ids : option (list nat))
        (fs : filesystem) (weights : option string)
        (num_batches gradient_accumulation_steps max_train_steps : nat)
        (st : train_state) :
  K >= 1 ->
  length emb = tokenizer_len tk ->
  register_tokens fresh_row tk emb token_string K = (tk', Ok (token_ids, emb1)) ->
  init_embeddings emb1 init_token_ids token_ids = Ok emb2 ->
  load_initial_weights convert table_dtype fs weights emb2 token_ids = Some (Ok emb3) ->
  train_loop update sync_gradients (tokenizer_len tk') token_ids emb3
             num_batches gradient_accumulation_steps max_train_steps = Ok st ->
  length (weight st) = tokenizer_len tk + K /\
  (forall r, r < tokenizer_len tk -> nth_error (weight st) r = nth_error emb r) /\
  (forall gs w, In (gs, w) (history st) ->
                forall r, r < tokenizer_len tk -> nth_error w r = nth_error emb r).
Proof.
  intros HK Hemb Hreg Hinit Hload Htrain.
  destruct (register_tokens_ok_inv fresh_row tk tk' emb emb1 token_string K token_ids
              HK Hreg) as [_ [Hids [Hvocab [Hlen1 Hemb1]]]].
  set (V := tokenizer_len tk) in *.
  assert (HV' : tokenizer_len tk' = V + K).
  { unfold tokenizer_len. rewrite Hvocab, length_app.
    rewrite (token_strings_length token_string K HK). reflexivity. }
  assert (Hbelow : forall r, r < V -> ~ In r token_ids)
    by (intros r Hr Hin; rewrite Hids in Hin; apply in_seq in Hin; lia).
  (* registration *)
  assert (H1 : forall r, r < V -> nth_error emb1 r = nth_error emb r).
  { intros r Hr. rewrite Hemb1. unfold resize_token_embeddings.
    rewrite firstn_all2 by lia. apply nth_error_app1. lia. }
  (* initialisation from a word *)
  assert (H2 : length emb2 = V + K /\
               forall r, r < V -> nth_error emb2 r = nth_error emb1 r).
  { unfold init_embeddings in Hinit. destruct init_token_ids as [ids|].
    - destruct (init_rows_untouched ids token_ids 0 emb1 emb2 Hinit) as [Hl Hf].
      split; [lia|]. intros r Hr. apply Hf. now apply Hbelow.
    - injection Hinit as <-. now split. }
  destruct H2 as [Hlen2 H2].
  (* loading of the weight file *)
  destruct (load_initial_weights_untouched convert table_dtype fs weights emb2 emb3
              token_ids Hload) as [Hlen3 H3].
  (* training *)
  unfold train_loop in Htrain. rewrite Hids, HV' in Htrain.
  destruct K as [|K']; [lia|]. cbn [seq] in Htrain.
  destruct (ceil_div num_batches gradient_accumulation_steps) as [U|]; [|discriminate].
  cbn [bind] in Htrain.
  destruct (ceil_div max_train_steps U) as [E|]; [|discriminate].
  cbn [bind] in Htrain.
  destruct (epoch_loop_kept update sync_gradients (V + S K') V (S K') emb3
              max_train_steps num_batches (seq 0 E) eq_refl ltac:(lia)
              (mkState emb3 0 0 []))
    as [st' [Hrun [Hw [Hkept Hhist]]]].
  { split; [cbn; lia|]. split; [|constructor]. split; reflexivity. }
  rewrite Hrun in Htrain. injection Htrain as <-.
  assert (Hchain : forall r, r < V -> nth_error emb3 r = nth_error emb r).
  { intros r Hr. rewrite H3 by now apply Hbelow. rewrite H2 by exact Hr. now apply H1. }
  split; [exact Hw|]. split.
  - intros r Hr. destruct Hkept as [_ Hrows]. rewrite Hrows by now left.
    now apply Hchain.
  - intros gs w Hin r Hr. rewrite Forall_forall in Hhist.
    destruct (Hhist _ Hin) as [_ Hrows]. cbn [snd] in Hrows.
    rewrite Hrows by now left. now apply Hchain.
Qed.

End Pipeline.

Lemma weights_override_init_word_witness :
  exists emb1 emb2,
    init_embeddings sample_wide (Some [1; 0]) (seq 2 2) = Ok emb1 /\
    load_initial_weights sample_convert Float32 fs_two_rows (Some "emb.pt") emb1 (seq 2 2)
    = Some (Ok emb2) /\
    (forall i, i < 2 ->
               nth_error emb2 (2 + i)
               = Some (convert_row sample_convert Float32 (t_dtype sample_emb)
                                   (firstn 3 (skipn (i * 3) (t_data sample_emb))))) /\
    (forall j, j < 2 -> nth_error emb2 j = nth_error sample_wide j).
Proof.
  apply (weights_override_init_word sample_convert Float32 fs_two_rows "emb.pt"
           (PickleFile (PyDict [("emb_params", PyTensor sample_emb)]))
           sample_emb sample_wide [1; 0] 2 2 3).
  - cbn. lia.
  - repeat constructor.
  - reflexivity.
  - repeat constructor.
  - reflexivity.
  - apply stores_pickle with (k := "emb_params") (rest := []); [reflexivity|].
    apply table_direct. reflexivity.
  - reflexivity.
  - reflexivity.
Defined.

Lemma base_vocabulary_rows_untouched_witness :
  length (weight sample_final_state) = tokenizer_len sample_tokenizer + 2 /\
  (forall r, r < tokenizer_len sample_tokenizer ->
             nth_error (weight sample_final_state) r = nth_error sample_table r) /\
  (forall gs w, In (gs, w) (history sample_final_state) ->
                forall r, r < tokenizer_len sample_tokenizer ->
                          nth_error w r = nth_error sample_table r).
Proof.
  apply (base_vocabulary_rows_untouched sample_fresh_row sample_convert Float32
           sample_update (accumulate_sync 1 2)
           sample_tokenizer (mkTokenizer ["<unk>"; "a"; "cat"; "sks"; "sks1"] 0)
           sample_table (resize_token_embeddings sample_fresh_row 5 sample_table)
           sample_initialised sample_initialised
           "sks" 2 [3; 4] (Some [2; 1]) empty_fs None 2 1 2 sample_final_state).
  - lia.
  - reflexivity.
  - reflexivity.
  - reflexivity.
  - reflexivity.
  - reflexivity.
Defined.
